(** * Term-definition plugin: the extraction-and-linking pipeline

    A shallow embedding of [src/main.ts] (class [TermDefinitionPlugin]) and
    the properties of its pipeline: response handling, folder routing, note
    materialisation and smart-link substitution.

    Conventions of the embedding.
    - A JavaScript string is a sequence of UTF-16 code units.  The embedding
      covers the code units 0..255 (Basic Latin and Latin-1), one [ascii]
      per code unit, so a JavaScript string is a [string].
    - Values that come out of [JSON.parse] are untyped ([JSValue]); the
      TypeScript annotation [as TermDefinition] performs no run-time check.
    - [async] methods are awaited one after the other, so they are modelled
      in a state-and-exception monad over the vault and the list of
      observable effects. *)

From Stdlib Require Import Ascii NArith Lia.
From stdpp Require Import base option list gmap sets strings.

#[local] Set Warnings "-clear-no-such-hyp".

Local Open Scope N_scope.

(** ** Code units *)

Module CodeUnit.

Definition code (c : ascii) : N := N_of_ascii c.

Definition between (lo hi n : N) : bool := (lo <=? n) && (n <=? hi).

(** [WordCharacters] of a pattern without the [u] flag: [a-zA-Z0-9_]. *)
Definition isWordChar (c : ascii) : bool :=
  let n := code c in
  between 97 122 n || between 65 90 n || between 48 57 n || (n =? 95).

(** [\b] looks at the code unit before and after the current position;
    [None] stands for a position outside the string. *)
Definition isWordCharAt (c : option ascii) : bool :=
  match c with
  | Some c => isWordChar c
  | None => false
  end.

(** [Canonicalize] with the [i] flag and without the [u] flag: the code unit
    of the upper-case form when that form is a single code unit, except that
    a code unit from 128 up never canonicalises below 128.  On 0..255:
    [a-z] and the Latin-1 lower-case letters 224..254 (not the division sign
    247) lose 32; 255 goes to U+0178 and 181 to U+039C, which lie outside
    the range; 223 upper-cases to two code units and stays. *)
Definition Canonicalize (c : ascii) : N :=
  let n := code c in
  if between 97 122 n then n - 32
  else if between 224 254 n && negb (n =? 247) then n - 32
  else if n =? 255 then 376
  else if n =? 181 then 924
  else n.

Definition sameIgnoringCase (a b : ascii) : bool :=
  Canonicalize a =? Canonicalize b.

End CodeUnit.

Local Close Scope N_scope.

(** ** The string methods the plugin calls *)

Module Str.

Definition head (s : string) : option ascii :=
  match s with
  | EmptyString => None
  | String c _ => Some c
  end.

(** The last code unit of [s], or [prev] when [s] is empty. *)
Fixpoint lastFrom (prev : option ascii) (s : string) : option ascii :=
  match s with
  | EmptyString => prev
  | String c s' => lastFrom (Some c) s'
  end.

Definition last (s : string) : option ascii := lastFrom None s.

(** [stripPrefix p s] is the rest of [s] after [p] when [s] starts with [p]. *)
Fixpoint stripPrefix (p s : string) : option string :=
  match p with
  | EmptyString => Some s
  | String a p' =>
      match s with
      | EmptyString => None
      | String b s' => if Ascii.eqb a b then stripPrefix p' s' else None
      end
  end.

(** [s.startsWith(p)] *)
Definition startsWith (s p : string) : bool :=
  match stripPrefix p s with
  | Some _ => true
  | None => false
  end.

(** [s.split(sep)] for a separator of one code unit.  The result is never
    empty: the empty string splits into one empty segment. *)
Fixpoint split (sep : ascii) (s : string) : list string :=
  match s with
  | EmptyString => [EmptyString]
  | String c s' =>
      if Ascii.eqb c sep then EmptyString :: split sep s'
      else match split sep s' with
           | seg :: rest => String c seg :: rest
           | [] => [String c EmptyString]
           end
  end.

(** The line feed, ["\n"] in the source. *)
Definition LF : string := String "010" EmptyString.

(** [parts.join(sep)] on parts already converted to strings. *)
Fixpoint join (sep : string) (parts : list string) : string :=
  match parts with
  | [] => ""
  | [p] => p
  | p :: rest => p +:+ sep +:+ join sep rest
  end.

(** [s.replace(pattern, replacement)] with a string pattern and a
    replacement string without [$]: the first occurrence of [pattern],
    searched from the left, is replaced; without an occurrence [s] is
    returned. *)
Fixpoint replace (pattern replacement s : string) : string :=
  match stripPrefix pattern s with
  | Some rest => replacement +:+ rest
  | None =>
      match s with
      | EmptyString => EmptyString
      | String c s' => String c (replace pattern replacement s')
      end
  end.

(** [occursIn pattern s]: [s.indexOf(pattern) >= 0]. *)
Fixpoint occursIn (pattern s : string) : bool :=
  match stripPrefix pattern s with
  | Some _ => true
  | None =>
      match s with
      | EmptyString => false
      | String _ s' => occursIn pattern s'
      end
  end.

End Str.

(** ** Regular expressions

    The fragment of the pattern language that [createSmartLink] builds: a
    sequence of word-boundary assertions and single characters.  Such a
    pattern has no alternatives, so matching at a position never
    backtracks. *)

Module RegExp.

Import CodeUnit.

Inductive Node :=
  | WordBoundary
  | Char (c : ascii).

(** [SyntaxCharacter] of the pattern grammar:
    [^ $ \ . * + ? ( ) [ ] { } |]. *)
Definition isSyntaxCharacter (c : ascii) : bool :=
  match c with
  | "^" | "$" | "\" | "." | "*" | "+" | "?"
  | "(" | ")" | "[" | "]" | "{" | "}" | "|" => true
  | _ => false
  end%char.

(** [new RegExp(source, "i")] on the fragment: [\b] is the word-boundary
    assertion, a backslash before a syntax character is an identity escape,
    every character that is not a syntax character stands for itself.
    [None] covers both a [SyntaxError] and a pattern outside the fragment
    (classes, groups, quantifiers, other escapes). *)
Fixpoint parse (source : string) : option (list Node) :=
  match source with
  | EmptyString => Some []
  | String "\" EmptyString => None
  | String "\" (String c rest) =>
      if Ascii.eqb c "b" then cons WordBoundary <$> parse rest
      else if isSyntaxCharacter c then cons (Char c) <$> parse rest
      else None
  | String c rest =>
      if isSyntaxCharacter c then None else cons (Char c) <$> parse rest
  end%char.

(** Match [nodes] at the position whose previous code unit is [prev] and
    whose remaining input is [s]; the result is the matched text and the
    input after it. *)
Fixpoint matchNodes (nodes : list Node) (prev : option ascii) (s : string)
  : option (string * string) :=
  match nodes with
  | [] => Some (EmptyString, s)
  | WordBoundary :: nodes' =>
      if xorb (isWordCharAt prev) (isWordCharAt (Str.head s))
      then matchNodes nodes' prev s
      else None
  | Char c :: nodes' =>
      match s with
      | EmptyString => None
      | String d s' =>
          if sameIgnoringCase c d then
            match matchNodes nodes' (Some d) s' with
            | Some (m, rest) => Some (String d m, rest)
            | None => None
            end
          else None
      end
  end.

(** [regex.exec(s)] for a regex without the [g] and [y] flags: the start
    positions are tried from the left, the end of the string included.  The
    result is the text before the match, the match and the text after. *)
Fixpoint execFrom (nodes : list Node) (prev : option ascii) (s : string)
  : option (string * string * string) :=
  match matchNodes nodes prev s with
  | Some (m, rest) => Some (EmptyString, m, rest)
  | None =>
      match s with
      | EmptyString => None
      | String c s' =>
          match execFrom nodes (Some c) s' with
          | Some (before, m, rest) => Some (String c before, m, rest)
          | None => None
          end
      end
  end.

Definition exec (nodes : list Node) (s : string) :=
  execFrom nodes None s.

(** [s.replace(regex, replacer)] with a replacer function and a regex
    without the [g] flag: the first match only. *)
Definition replaceWith (nodes : list Node) (replacer : string → string)
    (s : string) : string :=
  match exec nodes s with
  | Some (before, m, rest) => before +:+ replacer m +:+ rest
  | None => s
  end.

End RegExp.

(** ** Values produced by [JSON.parse] *)

Module JS.

(** A number is kept as the string that [Number::toString] gives for it:
    the plugin never computes with a number, it only tests it for truth and
    prints it.  JSON has no NaN, so a number is falsy exactly when it prints
    as ["0"] (both zeros do). *)
#[warnings="-register-all"] Inductive JSValue :=
  | JUndefined
  | JNull
  | JBool (b : bool)
  | JNumber (printed : string)
  | JString (s : string)
  | JArray (items : list JSValue)
  | JObject (props : list (string * JSValue)).

Inductive Error :=
  | TypeError
  | SyntaxError
  | NoteAlreadyExists
  | FilesystemFailure.

Inductive Result (A : Type) :=
  | Ok (a : A)
  | Throw (e : Error).
Arguments Ok {A} a.
Arguments Throw {A} e.

(** [ToBoolean] *)
Definition ToBoolean (v : JSValue) : bool :=
  match v with
  | JUndefined | JNull => false
  | JBool b => b
  | JNumber printed => negb (String.eqb printed "0")
  | JString s => negb (String.eqb s "")
  | JArray _ | JObject _ => true
  end.

(** The own property [key] of an object literal of the payload; a key
    written twice keeps its last value. *)
Fixpoint ownProperty (key : string) (props : list (string * JSValue))
  : option JSValue :=
  match props with
  | [] => None
  | (k, v) :: rest =>
      match ownProperty key rest with
      | Some v' => Some v'
      | None => if String.eqb k key then Some v else None
      end
  end.

(** [v.key] for the keys the plugin reads, [term] and [definition], which
    no prototype defines: an own property of an object, [undefined] on any
    other value, a [TypeError] on [undefined] and [null]. *)
Definition Get (v : JSValue) (key : string) : Result JSValue :=
  match v with
  | JUndefined | JNull => Throw TypeError
  | JObject props => Ok (default JUndefined (ownProperty key props))
  | _ => Ok JUndefined
  end.

(** [ToString].  An object prints through [Object.prototype.toString]
    unless the payload gave it an own [toString], which is then not callable
    and leaves [OrdinaryToPrimitive] without a primitive: a [TypeError]
    ([None]).  An array prints through [join(",")], where [undefined] and
    [null] items print as the empty string. *)
Fixpoint ToString (v : JSValue) : option string :=
  match v with
  | JUndefined => Some "undefined"
  | JNull => Some "null"
  | JBool true => Some "true"
  | JBool false => Some "false"
  | JNumber printed => Some printed
  | JString s => Some s
  | JArray items =>
      (fix joinItems (items : list JSValue) : option string :=
         let item x :=
           match x with
           | JUndefined | JNull => Some ""
           | _ => ToString x
           end in
         match items with
         | [] => Some ""
         | [x] => item x
         | x :: rest =>
             match item x, joinItems rest with
             | Some s, Some r => Some (s +:+ "," +:+ r)
             | _, _ => None
             end
         end) items
  | JObject props =>
      match ownProperty "toString" props with
      | Some _ => None
      | None => Some "[object Object]"
      end
  end.

(** A template-literal hole [${v}]. *)
Definition interpolate (v : JSValue) : Result string :=
  match ToString v with
  | Some s => Ok s
  | None => Throw TypeError
  end.

(** An element of an array literal as [join] prints it. *)
Definition joinElement (v : JSValue) : Result string :=
  match v with
  | JUndefined | JNull => Ok ""
  | _ => interpolate v
  end.

End JS.

(** ** The world the plugin runs in *)

Module Host.

Import JS.

(** What a run does to its surroundings, oldest effect first. *)
Inductive Effect :=
  | CreatedFolder (path : string)
  | CreatedFile (path content : string)
  | ReplacedSelection (text : string)
  | Notice (message : string)
  | ConsoleError (message : string).

Record World := {
  folders : gset string;
  files : gmap string string;
  effects : list Effect
}.

(** Awaited calls run in sequence; an exception leaves the world as it was
    when it was thrown (nothing is rolled back). *)
Definition M (A : Type) : Type := World → Result A * World.

Definition ret {A} (a : A) : M A := fun w => (Ok a, w).

Definition throw {A} (e : Error) : M A := fun w => (Throw e, w).

Definition bind {A B} (m : M A) (k : A → M B) : M B :=
  fun w =>
    match m w with
    | (Ok a, w') => k a w'
    | (Throw e, w') => (Throw e, w')
    end.

Definition lift {A} (r : Result A) : M A := fun w => (r, w).

(** [try { body } catch (error) { handler }] *)
Definition tryCatch {A} (body : M A) (handler : Error → M A) : M A :=
  fun w =>
    match body w with
    | (Ok a, w') => (Ok a, w')
    | (Throw e, w') => handler e w'
    end.

Definition emit (e : Effect) : M unit :=
  fun w => (Ok tt, {| folders := folders w; files := files w;
                      effects := effects w ++ [e] |}).

Definition occupied (w : World) (path : string) : bool :=
  bool_decide (path ∈ folders w) || bool_decide (is_Some (files w !! path)).

(** Modelled from the spec: the storage collaborator of the host
    ([vault.adapter.exists], [vault.createFolder], [vault.create]) is not
    code of the plugin.  [exists(path)] tells whether a folder or a file
    occupies [path]. *)
Definition adapter_exists (path : string) : M bool :=
  fun w => (Ok (occupied w path), w).

(** Modelled from the spec: the storage collaborator's [createFolder(path)];
    the host rejects the creation of a folder at an occupied path. *)
Definition createFolder (path : string) : M unit :=
  fun w =>
    if occupied w path then (Throw FilesystemFailure, w)
    else (Ok tt, {| folders := {[path]} ∪ folders w; files := files w;
                    effects := effects w ++ [CreatedFolder path] |}).

(** Modelled from the spec: the storage collaborator's
    [createFile(path, content)], which signals [NoteAlreadyExists] at an
    occupied path and never overwrites. *)
Definition create (path content : string) : M unit :=
  fun w =>
    if occupied w path then (Throw NoteAlreadyExists, w)
    else (Ok tt, {| folders := folders w; files := <[path := content]> (files w);
                    effects := effects w ++ [CreatedFile path content] |}).

Definition replaceSelection (text : string) : M unit :=
  emit (ReplacedSelection text).

Definition notice (message : string) : M unit := emit (Notice message).

Definition console_error (message : string) : M unit :=
  emit (ConsoleError message).

End Host.

Notation "'let*' x ':=' e 'in' k" := (Host.bind e (fun x => k))
  (at level 10, x name, e at level 100, k at level 200,
   format "'let*'  x  :=  e  'in' '//' k").
Notation "e ';;' k" := (Host.bind e (fun _ => k))
  (at level 100, k at level 200, right associativity).

(** ** The plugin *)

Module Plugin.

Import JS Host.

Record FolderMapping := {
  sourcePath : string;
  targetPath : string
}.

Record TermDefinitionPluginSettings := {
  apiEndpoint : string;
  apiKey : string;
  folderMappings : list FolderMapping;
  defaultGlossaryPath : string;
  llmModel : string
}.

Definition DEFAULT_SETTINGS : TermDefinitionPluginSettings := {|
  apiEndpoint := "";
  apiKey := "";
  folderMappings := [];
  llmModel := "";
  defaultGlossaryPath := "Glossary"
|}.

(** The fields of the host's [TFile] that the plugin reads. *)
Record TFile := {
  path : string;
  basename : string
}.

(** [this]: the settings, and what [this.app.workspace.getActiveFile()]
    answers during the run. *)
Record TermDefinitionPlugin := {
  settings : TermDefinitionPluginSettings;
  activeFile : option TFile
}.

(** How [JSON.parse(response.json.choices[0].message.content)] after
    [await requestUrl(...)] ends.  The HTTP client and the JSON parser are
    the host's; what the plugin does depends on the outcome only. *)
Inductive LLMReply :=
  | RequestRejected
  | NoResponse
  | PayloadMissing
  | PayloadNotJSON
  | Parsed (v : JSValue).

(** The [for] loop of [getTargetFolder]. *)
Fixpoint firstMapping (mappings : list FolderMapping) (sourcePath_ : string)
  : option FolderMapping :=
  match mappings with
  | [] => None
  | mapping :: rest =>
      if Str.startsWith sourcePath_ (sourcePath mapping) then Some mapping
      else firstMapping rest sourcePath_
  end.

Definition getTargetFolder (this : TermDefinitionPlugin)
    (sourceFile : option TFile) : string :=
  match sourceFile with
  | None => defaultGlossaryPath (settings this)
  | Some file =>
      match firstMapping (folderMappings (settings this)) (path file) with
      | Some mapping => targetPath mapping
      | None => defaultGlossaryPath (settings this)
      end
  end.

(** The [for] loop of [ensureFolderExists] over the remaining segments. *)
Fixpoint ensureFolders (folders : list string) (currentPath : string)
  : M unit :=
  match folders with
  | [] => ret tt
  | folder :: rest =>
      let currentPath := currentPath +:+ folder in
      let* present := adapter_exists currentPath in
      (if negb present then createFolder currentPath else ret tt) ;;
      ensureFolders rest (currentPath +:+ "/")
  end.

Definition ensureFolderExists (path : string) : M unit :=
  ensureFolders (Str.split "/" path) "".

(** [term.replace(/[.*+?^${}()|[\]\\]/g, "\\$&")]: a backslash goes before
    every character of the class. *)
Definition inEscapeClass (c : ascii) : bool :=
  match c with
  | "." | "*" | "+" | "?" | "^" | "$" | "{" | "}"
  | "(" | ")" | "|" | "[" | "]" | "\" => true
  | _ => false
  end%char.

Fixpoint escapeTerm (term : string) : string :=
  match term with
  | EmptyString => EmptyString
  | String c rest =>
      if inEscapeClass c then String "\" (String c (escapeTerm rest))
      else String c (escapeTerm rest)
  end.

(** The replacer [(match) => `[[${term}|${match}]]`]. *)
Definition linkOf (term matched : string) : string :=
  "[[" +:+ term +:+ "|" +:+ matched +:+ "]]".

(** [createSmartLink] has no type annotations: [term] is whatever the
    payload holds under [term].  Only a string has a callable [replace]. *)
Definition createSmartLink (originalText : string) (term : JSValue)
  : Result string :=
  match term with
  | JString term =>
      let escapedTerm := escapeTerm term in
      match RegExp.parse ("\b" +:+ escapedTerm +:+ "\b") with
      | Some regex =>
          Ok (RegExp.replaceWith regex (linkOf term) originalText)
      | None => Throw SyntaxError
      end
  | _ => Throw TypeError
  end.

Definition sourceLine (activeFile : option TFile) : string :=
  match activeFile with
  | Some file => "- Source: [[" +:+ basename file +:+ "]]"
  | None => ""
  end.

Definition createDefinitionNote (this : TermDefinitionPlugin)
    (definition : JSValue) : M string :=
  let activeFile := activeFile this in
  let targetFolder := getTargetFolder this activeFile in
  ensureFolderExists targetFolder ;;
  let* text := lift (Get definition "definition") in
  let* body := lift (joinElement text) in
  let noteContent := Str.join Str.LF [body; ""; sourceLine activeFile] in
  let* term := lift (Get definition "term") in
  let* stem := lift (interpolate term) in
  let notePath := targetFolder +:+ "/" +:+ stem +:+ ".md" in
  create notePath noteContent ;;
  ret (Str.replace ".md" "" notePath).

(** The inner [try]/[catch] turns every failure into [null]; a payload that
    parses is returned as it is. *)
Definition getDefinitionFromLLM (reply : LLMReply) : M JSValue :=
  match reply with
  | Parsed v => ret v
  | _ => console_error "Error calling LLM API:" ;; ret JNull
  end.

Definition handleTermDefinition (this : TermDefinitionPlugin)
    (selectedText : string) (reply : LLMReply) : M unit :=
  if negb (ToBoolean (JString selectedText)) then notice "No text selected"
  else
    tryCatch
      (let* definition := getDefinitionFromLLM reply in
       if negb (ToBoolean definition)
       then notice "Failed to get definition from API"
       else
         createDefinitionNote this definition ;;
         let* term := lift (Get definition "term") in
         let* linkedText := lift (createSmartLink selectedText term) in
         let* pattern := lift (interpolate definition) in
         let linkedText := Str.replace pattern "undefined" linkedText in
         replaceSelection linkedText ;;
         notice "Term definition created successfully")
      (fun error =>
         console_error "Error handling term definition:" ;;
         notice "Error creating term definition").

(** The entry that the settings tab's Add button pushes. *)
Definition addedMapping : FolderMapping :=
  {| sourcePath := ""; targetPath := "" |}.

(** A vault with nothing in it and no effect recorded. *)
Definition emptyWorld : World :=
  {| folders := ∅; files := ∅; effects := [] |}.

Definition termDefinition (term definition : string) : JSValue :=
  JObject [("term", JString term); ("definition", JString definition)].

(** The handlers that [TermDefinitionSettingTab.display] installs, as
    updates of [this.plugin.settings]; each of them then awaits
    [saveSettings].  [index] is the position that [forEach] gave the
    mapping when the tab was drawn. *)

(** The Add button: [folderMappings.push({sourcePath: "", targetPath: ""})]. *)
Definition onAddMapping (s : TermDefinitionPluginSettings)
  : TermDefinitionPluginSettings :=
  {| apiEndpoint := apiEndpoint s; apiKey := apiKey s;
     folderMappings := folderMappings s ++ [addedMapping];
     defaultGlossaryPath := defaultGlossaryPath s; llmModel := llmModel s |}.

(** The Remove button: [folderMappings.splice(index, 1)], which removes
    nothing when [index] is past the end. *)
Definition onRemoveMapping (index : nat) (s : TermDefinitionPluginSettings)
  : TermDefinitionPluginSettings :=
  {| apiEndpoint := apiEndpoint s; apiKey := apiKey s;
     folderMappings := delete index (folderMappings s);
     defaultGlossaryPath := defaultGlossaryPath s; llmModel := llmModel s |}.

(** [folderMappings[index].sourcePath = value]; writing to a property of
    [undefined] is a [TypeError]. *)
Definition onSourcePathChange (index : nat) (value : string)
    (s : TermDefinitionPluginSettings)
  : JS.Result TermDefinitionPluginSettings :=
  match folderMappings s !! index with
  | Some mapping =>
      Ok {| apiEndpoint := apiEndpoint s; apiKey := apiKey s;
            folderMappings :=
              <[index := {| sourcePath := value;
                            targetPath := targetPath mapping |}]>
                (folderMappings s);
            defaultGlossaryPath := defaultGlossaryPath s;
            llmModel := llmModel s |}
  | None => Throw TypeError
  end.

(** [folderMappings[index].targetPath = value] *)
Definition onTargetPathChange (index : nat) (value : string)
    (s : TermDefinitionPluginSettings)
  : JS.Result TermDefinitionPluginSettings :=
  match folderMappings s !! index with
  | Some mapping =>
      Ok {| apiEndpoint := apiEndpoint s; apiKey := apiKey s;
            folderMappings :=
              <[index := {| sourcePath := sourcePath mapping;
                            targetPath := value |}]>
                (folderMappings s);
            defaultGlossaryPath := defaultGlossaryPath s;
            llmModel := llmModel s |}
  | None => Throw TypeError
  end.

End Plugin.

(** ** Vocabulary of the statements *)

Module Spec.

Import CodeUnit RegExp.

(** The pattern that matches [term] character by character. *)
Fixpoint literal (term : string) : list Node :=
  match term with
  | EmptyString => []
  | String c rest => Char c :: literal rest
  end.

(** [m] is [term] up to the case of its letters. *)
Fixpoint sameTextIgnoringCase (term m : string) : bool :=
  match term, m with
  | EmptyString, EmptyString => true
  | String c term', String d m' =>
      sameIgnoringCase c d && sameTextIgnoringCase term' m'
  | _, _ => false
  end.

(** A word boundary lies between two neighbours when exactly one of them
    is a word character; the outside of the text is no word character. *)
Definition boundary (before after : option ascii) : bool :=
  xorb (isWordCharAt before) (isWordCharAt after).

(** [m], standing between [pre] and [post], is a whole-word occurrence of
    [term]: it spells [term] up to case and has a word boundary on each
    side. *)
Definition wholeWordAt (term pre m post : string) : Prop :=
  sameTextIgnoringCase term m = true
  ∧ boundary (Str.last pre) (Str.head (m +:+ post)) = true
  ∧ boundary (Str.last (pre +:+ m)) (Str.head post) = true.

Definition occursAsWholeWord (term text : string) : Prop :=
  ∃ pre m post, text = pre +:+ m +:+ post ∧ wholeWordAt term pre m post.

(** The leftmost whole-word occurrence of [term] in [text]. *)
Definition firstWholeWord (term text pre m post : string) : Prop :=
  text = pre +:+ m +:+ post
  ∧ wholeWordAt term pre m post
  ∧ ∀ pre' m' post',
      text = pre' +:+ m' +:+ post' → wholeWordAt term pre' m' post' →
      String.length pre ≤ String.length pre'.

(** An occurrence that stands alone: no word character touches it. *)
Definition standalone (pre post : string) : Prop :=
  isWordCharAt (Str.last pre) = false ∧ isWordCharAt (Str.head post) = false.

(** [p] is a string prefix of [s]. *)
Definition isPrefixOf (p s : string) : Prop := ∃ rest, s = p +:+ rest.

(** The paths that a walk over [segments] visits when it starts with
    [current] already accumulated. *)
Fixpoint accumulate (current : string) (segments : list string)
  : list string :=
  match segments with
  | [] => []
  | segment :: rest =>
      (current +:+ segment)
        :: accumulate ((current +:+ segment) +:+ "/") rest
  end.

(** The accumulated prefixes of a folder path, left to right: its first
    segment, its first two segments joined by a slash, and so on up to the
    whole path. *)
Definition folderPrefixes (path : string) : list string :=
  let segments := Str.split "/" path in
  (λ k, Str.join "/" (take k segments)) <$> seq 1 (length segments).

(** The prefixes of [path] that nothing occupies in [w]. *)
Definition missingFolders (w : Host.World) (path : string) : list string :=
  filter (λ p, Host.occupied w p = false) (folderPrefixes path).

(** A value of the payload that has the shape of the interface
    [TermDefinition]: an object with a string under [term] and a string
    under [definition]; the interface has no member [toString]. *)
Definition isTermDefinition (v : JS.JSValue) (term text : string) : Prop :=
  ∃ props,
    v = JS.JObject props
    ∧ JS.ownProperty "term" props = Some (JS.JString term)
    ∧ JS.ownProperty "definition" props = Some (JS.JString text)
    ∧ JS.ownProperty "toString" props = None.

(** The request or the parse threw: no value came out of [JSON.parse]. *)
Definition parseFailed (reply : Plugin.LLMReply) : Prop :=
  ∀ v, reply ≠ Plugin.Parsed v.

(** The effects that a run adds to those of the world it started in. *)
Definition effectsOf (w : Host.World) (new : list Host.Effect)
    (w' : Host.World) : Prop :=
  Host.effects w' = Host.effects w ++ new.

(** The plugin with its default settings and no document open. *)
Definition defaultPlugin : Plugin.TermDefinitionPlugin :=
  {| Plugin.settings := Plugin.DEFAULT_SETTINGS; Plugin.activeFile := None |}.

(** The path at which the note of [term] is written. *)
Definition notePathOf (this : Plugin.TermDefinitionPlugin) (term : string)
  : string :=
  Plugin.getTargetFolder this (Plugin.activeFile this)
    +:+ "/" +:+ term +:+ ".md".

(** The body of a note: the definition text, a blank line and, when the
    source document is known, the back-reference line. *)
Definition noteBodyOf (source : option Plugin.TFile) (text : string)
  : string :=
  match source with
  | Some file =>
      text +:+ Str.LF +:+ Str.LF
        +:+ "- Source: [[" +:+ Plugin.basename file +:+ "]]"
  | None => text +:+ Str.LF +:+ Str.LF
  end.

(** A vault that already holds the note of the term [gpu]. *)
Definition vaultWithNote : Host.World :=
  {| Host.folders := {["Glossary"]};
     Host.files := {["Glossary/gpu.md" := "old"]};
     Host.effects := [] |}.

(** The configuration of the spec's routing examples. *)
Definition projectsPlugin : Plugin.TermDefinitionPlugin :=
  {| Plugin.settings :=
       {| Plugin.apiEndpoint := ""; Plugin.apiKey := "";
          Plugin.folderMappings :=
            [{| Plugin.sourcePath := "Projects";
                Plugin.targetPath := "Projects/Glossary" |}];
          Plugin.defaultGlossaryPath := "Glossary";
          Plugin.llmModel := "" |};
     Plugin.activeFile := None |}.

(** [s] holds a word character. *)
Fixpoint hasWordChar (s : string) : bool :=
  match s with
  | EmptyString => false
  | String c rest => isWordChar c || hasWordChar rest
  end.

(** The ways in which a run of [handleTermDefinition] ends. *)
Inductive Outcome :=
  | NothingSelected
  | CallFailed (logged : bool)
  | NoteFailed
  | LinkFailed (notePath body : string)
  | Linked (notePath body replaced : string).

(** The effects of a run that ends in [outcome], when [missing] are the
    folders of the chain that it had to create. *)
Definition effectsOfOutcome (missing : list string) (outcome : Outcome)
  : list Host.Effect :=
  match outcome with
  | NothingSelected => [Host.Notice "No text selected"]
  | CallFailed logged =>
      (if logged then [Host.ConsoleError "Error calling LLM API:"] else [])
      ++ [Host.Notice "Failed to get definition from API"]
  | NoteFailed =>
      (Host.CreatedFolder <$> missing)
      ++ [Host.ConsoleError "Error handling term definition:";
          Host.Notice "Error creating term definition"]
  | LinkFailed notePath body =>
      (Host.CreatedFolder <$> missing)
      ++ [Host.CreatedFile notePath body;
          Host.ConsoleError "Error handling term definition:";
          Host.Notice "Error creating term definition"]
  | Linked notePath body replaced =>
      (Host.CreatedFolder <$> missing)
      ++ [Host.CreatedFile notePath body;
          Host.ReplacedSelection replaced;
          Host.Notice "Term definition created successfully"]
  end.

(** The folders and files of the vault [w'] after a run that started in [w]
    and ended in [outcome]. *)
Definition vaultAfter (w : Host.World) (missing : list string)
    (outcome : Outcome) (w' : Host.World) : Prop :=
  match outcome with
  | NothingSelected | CallFailed _ =>
      Host.folders w' = Host.folders w ∧ Host.files w' = Host.files w
  | NoteFailed =>
      Host.folders w' = list_to_set missing ∪ Host.folders w
      ∧ Host.files w' = Host.files w
  | LinkFailed notePath body | Linked notePath body _ =>
      Host.folders w' = list_to_set missing ∪ Host.folders w
      ∧ Host.files w' = <[notePath := body]> (Host.files w)
      ∧ Host.files w !! notePath = None
      ∧ notePath ∉ Host.folders w'
  end.

(** No effect of the list is a notice. *)
Definition noNotice (new : list Host.Effect) : Prop :=
  ∀ message, Host.Notice message ∉ new.

End Spec.

(** * Properties *)

Import CodeUnit RegExp JS Host Plugin Spec.

(** ** Strings *)

Lemma app_cons c s t : String c s +:+ t = String c (s +:+ t).
Proof. reflexivity. Qed.

Lemma app_empty_l s : "" +:+ s = s.
Proof. reflexivity. Qed.

Lemma app_empty_r s : s +:+ "" = s.
Proof. induction s as [|c s IH]; [done|]. by rewrite app_cons, IH. Qed.

Lemma app_assoc_str s t u : (s +:+ t) +:+ u = s +:+ t +:+ u.
Proof. induction s as [|c s IH]; [done|]. by rewrite !app_cons, IH. Qed.

Lemma length_app_str s t :
  String.length (s +:+ t) = String.length s + String.length t.
Proof. induction s as [|c s IH]; [done|]. rewrite app_cons. simpl. lia. Qed.

Lemma app_inv_same_length a b c d :
  a +:+ b = c +:+ d → String.length a = String.length c → a = c ∧ b = d.
Proof.
  revert c. induction a as [|x a IH]; intros [|y c] Heq Hlen;
    try discriminate Hlen; [done|].
  rewrite !app_cons in Heq. injection Heq as -> Heq.
  destruct (IH c Heq) as [-> ->]; [by injection Hlen|done].
Qed.

Lemma stripPrefix_Some p s rest :
  Str.stripPrefix p s = Some rest ↔ s = p +:+ rest.
Proof.
  revert s. induction p as [|a p IH]; intros s; simpl.
  - split; [by intros [= ->]|by intros ->].
  - destruct s as [|b s]; [split; [done|by rewrite app_cons]|].
    rewrite app_cons. destruct (Ascii.eqb_spec a b) as [->|Hne].
    + rewrite IH. split; [by intros ->|by intros [= ->]].
    + split; [done|]. intros [= Hb _]. by destruct Hne.
Qed.

Lemma stripPrefix_None p s :
  Str.stripPrefix p s = None ↔ ∀ rest, s ≠ p +:+ rest.
Proof.
  split.
  - intros Hnone rest Heq. apply stripPrefix_Some in Heq. congruence.
  - intros Hno. destruct (Str.stripPrefix p s) as [rest|] eqn:Hs; [|done].
    apply stripPrefix_Some in Hs. by destruct (Hno rest).
Qed.

Lemma startsWith_isPrefixOf s p : Str.startsWith s p = true ↔ isPrefixOf p s.
Proof.
  unfold Str.startsWith, isPrefixOf.
  destruct (Str.stripPrefix p s) as [rest|] eqn:Hs.
  - apply stripPrefix_Some in Hs. split; [by exists rest|done].
  - split; [done|]. intros [rest Heq].
    apply stripPrefix_Some in Heq. congruence.
Qed.

Lemma lastFrom_app prev s t :
  Str.lastFrom prev (s +:+ t) = Str.lastFrom (Str.lastFrom prev s) t.
Proof.
  revert prev. induction s as [|c s IH]; intros prev; [done|].
  rewrite app_cons. simpl. apply IH.
Qed.

Lemma last_app s t : Str.last (s +:+ t) = Str.lastFrom (Str.last s) t.
Proof. apply lastFrom_app. Qed.

(** ** The pattern of [createSmartLink] *)

Lemma inEscapeClass_syntax c : inEscapeClass c = isSyntaxCharacter c.
Proof. by destruct c as [[] [] [] [] [] [] [] []]. Qed.

Lemma parse_plain c rest :
  isSyntaxCharacter c = false →
  parse (String c rest) = cons (Char c) <$> parse rest.
Proof.
  destruct c as [[] [] [] [] [] [] [] []]; intros H;
    try discriminate H; reflexivity.
Qed.

Lemma parse_escaped c rest :
  isSyntaxCharacter c = true →
  parse (String "\" (String c rest)) = cons (Char c) <$> parse rest.
Proof.
  destruct c as [[] [] [] [] [] [] [] []]; intros H;
    try discriminate H; reflexivity.
Qed.

Lemma parse_escapeTerm term tail nodes :
  parse tail = Some nodes →
  parse (escapeTerm term +:+ tail) = Some (literal term ++ nodes).
Proof.
  intros Htail. induction term as [|c term IH]; [done|].
  simpl. destruct (inEscapeClass c) eqn:Hc; rewrite inEscapeClass_syntax in Hc.
  - rewrite !app_cons, parse_escaped, IH; done.
  - rewrite app_cons, parse_plain, IH; done.
Qed.

Lemma parse_smartLink_pattern term :
  parse ("\b" +:+ escapeTerm term +:+ "\b")
  = Some (WordBoundary :: literal term ++ [WordBoundary]).
Proof.
  change (cons WordBoundary <$> parse (escapeTerm term +:+ "\b")
          = Some (WordBoundary :: literal term ++ [WordBoundary])).
  by rewrite (parse_escapeTerm term "\b" [WordBoundary]).
Qed.

(** ** Matching the pattern *)

Lemma sameText_length term m :
  sameTextIgnoringCase term m = true → String.length m = String.length term.
Proof.
  revert m. induction term as [|c term IH]; intros [|d m] H;
    try discriminate H; [done|].
  simpl in H. apply andb_true_iff in H as [_ H]. simpl. by rewrite (IH m).
Qed.

Lemma matchNodes_literal term prev s m rest :
  matchNodes (literal term ++ [WordBoundary]) prev s = Some (m, rest)
  ↔ s = m +:+ rest
    ∧ sameTextIgnoringCase term m = true
    ∧ boundary (Str.lastFrom prev m) (Str.head rest) = true.
Proof.
  revert prev s m rest.
  induction term as [|c term IH]; intros prev s m rest; simpl.
  - unfold boundary.
    destruct (xorb (isWordCharAt prev) (isWordCharAt (Str.head s))) eqn:Hb.
    + split.
      * by intros [= <- <-].
      * intros (-> & Hm & _). by destruct m.
    + split; [done|]. intros (-> & Hm & Hb'). destruct m; [|done].
      change (Str.head ("" +:+ rest)) with (Str.head rest) in Hb.
      simpl in Hb'. congruence.
  - destruct s as [|d s].
    { split; [done|]. intros (Hs & Hm & _). destruct m; [done|].
      by rewrite app_cons in Hs. }
    destruct (sameIgnoringCase c d) eqn:Hcd.
    + destruct (matchNodes (literal term ++ [WordBoundary]) (Some d) s)
        as [[m' rest']|] eqn:Hrec.
      * apply IH in Hrec as (-> & Hm' & Hb). split.
        -- intros [= <- <-]. rewrite app_cons. simpl. by rewrite Hcd, Hm'.
        -- intros (Hs & Hm & Hb'). destruct m as [|e m]; [done|].
           rewrite app_cons in Hs. injection Hs as <- Hs.
           simpl in Hm. apply andb_true_iff in Hm as [_ Hm].
           pose proof (sameText_length _ _ Hm') as L1.
           pose proof (sameText_length _ _ Hm) as L2.
           destruct (app_inv_same_length _ _ _ _ Hs) as [-> ->];
             [congruence|done].
      * split; [done|]. intros (Hs & Hm & Hb). destruct m as [|e m]; [done|].
        rewrite app_cons in Hs. injection Hs as <- ->.
        simpl in Hm. apply andb_true_iff in Hm as [_ Hm]. simpl in Hb.
        assert (matchNodes (literal term ++ [WordBoundary]) (Some d)
                  (m +:+ rest) = Some (m, rest)) as Hyes by by apply IH.
        congruence.
    + split; [done|]. intros (Hs & Hm & _). destruct m as [|e m]; [done|].
      rewrite app_cons in Hs. injection Hs as <- _.
      simpl in Hm. rewrite Hcd in Hm. done.
Qed.

Lemma matchNodes_wholeWord term pre m post :
  matchNodes (WordBoundary :: literal term ++ [WordBoundary])
    (Str.last pre) (m +:+ post) = Some (m, post)
  ↔ wholeWordAt term pre m post.
Proof.
  unfold wholeWordAt. rewrite last_app. simpl. fold (boundary (Str.last pre)
    (Str.head (m +:+ post))).
  destruct (boundary (Str.last pre) (Str.head (m +:+ post))) eqn:Hb.
  - rewrite matchNodes_literal. split.
    + by intros (_ & ? & ?).
    + by intros (? & _ & ?).
  - split; [done|]. by intros (_ & ? & _).
Qed.

Lemma matchNodes_wholeWord_inv term prev s m rest :
  matchNodes (WordBoundary :: literal term ++ [WordBoundary]) prev s
  = Some (m, rest) → s = m +:+ rest.
Proof.
  simpl. destruct (xorb _ _); [|done].
  intros H. by apply matchNodes_literal in H as (-> & _).
Qed.

Lemma execFrom_Some nodes s prev before m rest :
  execFrom nodes prev s = Some (before, m, rest) →
  ∃ s', s = before +:+ s'
    ∧ matchNodes nodes (Str.lastFrom prev before) s' = Some (m, rest)
    ∧ ∀ b' s'', s = b' +:+ s'' → String.length b' < String.length before →
        matchNodes nodes (Str.lastFrom prev b') s'' = None.
Proof.
  revert prev before. induction s as [|c s IH]; intros prev before; simpl.
  - destruct (matchNodes nodes prev "") as [[m0 r0]|] eqn:Hm; [|done].
    intros [= <- <- <-]. exists "". split_and!; [done..|]. simpl. lia.
  - destruct (matchNodes nodes prev (String c s)) as [[m0 r0]|] eqn:Hm.
    + intros [= <- <- <-]. exists (String c s). split_and!; [done..|].
      simpl. lia.
    + destruct (execFrom nodes (Some c) s) as [[[b1 m1] r1]|] eqn:Hrec; [|done].
      intros [= <- <- <-]. destruct (IH _ _ Hrec) as (s' & -> & Hmatch & Hmin).
      exists s'. split_and!; [done..|].
      intros [|x b'] s'' Heq Hlen.
      * rewrite app_empty_l in Heq. subst s''. exact Hm.
      * rewrite !app_cons in Heq. injection Heq as <- Heq. simpl.
        apply Hmin; [done|]. simpl in Hlen. lia.
Qed.

Lemma execFrom_None nodes s prev b' s'' :
  execFrom nodes prev s = None → s = b' +:+ s'' →
  matchNodes nodes (Str.lastFrom prev b') s'' = None.
Proof.
  revert prev b'. induction s as [|c s IH]; intros prev b'; simpl.
  - destruct (matchNodes nodes prev "") as [[m0 r0]|] eqn:Hm; [done|].
    intros _ Heq. destruct b'; [|done]. rewrite app_empty_l in Heq.
    by subst s''.
  - destruct (matchNodes nodes prev (String c s)) as [[m0 r0]|] eqn:Hm;
      [done|].
    destruct (execFrom nodes (Some c) s) as [[[b1 m1] r1]|] eqn:Hrec; [done|].
    intros _ Heq. destruct b' as [|x b'].
    + rewrite app_empty_l in Heq. by subst s''.
    + rewrite app_cons in Heq. injection Heq as <- Heq. simpl. by apply IH.
Qed.

(** [exec] finds the leftmost whole-word occurrence, and only that. *)
Lemma exec_firstWholeWord term text pre m post :
  exec (WordBoundary :: literal term ++ [WordBoundary]) text
  = Some (pre, m, post)
  ↔ firstWholeWord term text pre m post.
Proof.
  unfold exec, firstWholeWord. split.
  - intros Hex. apply execFrom_Some in Hex as (s' & -> & Hmatch & Hmin).
    pose proof (matchNodes_wholeWord_inv _ _ _ _ _ Hmatch) as ->.
    split_and!; [done|by apply matchNodes_wholeWord|].
    intros pre' m' post' Heq Hw. apply matchNodes_wholeWord in Hw.
    unfold Str.last in Hw. destruct (decide (String.length pre ≤ String.length pre')); [done|].
    rewrite (Hmin pre' (m' +:+ post')) in Hw; [done|done|lia].
  - intros (-> & Hw & Hfirst).
    pose proof Hw as Hmatch. apply matchNodes_wholeWord in Hmatch.
    unfold Str.last in Hmatch.
    destruct (execFrom _ None (pre +:+ m +:+ post))
      as [[[b m1] r1]|] eqn:Hex.
    + apply execFrom_Some in Hex as (s' & Heq & Hm1 & Hmin).
      pose proof (matchNodes_wholeWord_inv _ _ _ _ _ Hm1) as ->.
      assert (String.length pre ≤ String.length b) as Hle.
      { apply (Hfirst b m1 r1 Heq). by apply matchNodes_wholeWord. }
      destruct (decide (String.length pre < String.length b)) as [Hlt|].
      { rewrite (Hmin pre (m +:+ post)) in Hmatch; done. }
      destruct (app_inv_same_length _ _ _ _ Heq) as [-> Heq']; [lia|].
      apply matchNodes_wholeWord in Hm1 as (Hs1 & _).
      destruct Hw as (Hs & _).
      apply sameText_length in Hs1, Hs.
      destruct (app_inv_same_length _ _ _ _ Heq') as [-> ->]; [lia|done].
    + rewrite (execFrom_None _ _ _ pre (m +:+ post) Hex) in Hmatch; done.
Qed.

Lemma exec_None_iff term text :
  exec (WordBoundary :: literal term ++ [WordBoundary]) text = None
  ↔ ¬ occursAsWholeWord term text.
Proof.
  unfold exec, occursAsWholeWord. split.
  - intros Hex (pre & m & post & -> & Hw). apply matchNodes_wholeWord in Hw.
    unfold Str.last in Hw.
    rewrite (execFrom_None _ _ _ pre (m +:+ post) Hex) in Hw; done.
  - intros Hno.
    destruct (execFrom _ None text) as [[[b m] r]|] eqn:Hex; [|done].
    destruct Hno. exists b, m, r.
    by apply (exec_firstWholeWord term text b m r) in Hex as (? & ? & _).
Qed.

Lemma createSmartLink_string text term :
  createSmartLink text (JString term)
  = Ok (replaceWith (WordBoundary :: literal term ++ [WordBoundary])
          (linkOf term) text).
Proof. unfold createSmartLink. by rewrite parse_smartLink_pattern. Qed.

Lemma lastFrom_nonempty prev m :
  m ≠ "" → Str.lastFrom prev m = Str.last m.
Proof. destruct m as [|c m]; [done|]. reflexivity. Qed.

Lemma head_app_nonempty m post :
  m ≠ "" → Str.head (m +:+ post) = Str.head m.
Proof. destruct m as [|c m]; [done|]. reflexivity. Qed.

Lemma createSmartLink_first term text pre m post :
  firstWholeWord term text pre m post →
  createSmartLink text (JString term)
  = Ok (pre +:+ "[[" +:+ term +:+ "|" +:+ m +:+ "]]" +:+ post).
Proof.
  intros Hfirst. apply exec_firstWholeWord in Hfirst.
  rewrite createSmartLink_string. unfold replaceWith. rewrite Hfirst.
  unfold linkOf. by rewrite !app_assoc_str.
Qed.

Lemma occurs_firstWholeWord term text :
  occursAsWholeWord term text →
  ∃ pre m post, firstWholeWord term text pre m post.
Proof.
  intros Hocc.
  destruct (exec (WordBoundary :: literal term ++ [WordBoundary]) text)
    as [[[pre m] post]|] eqn:Hex.
  - exists pre, m, post. by apply exec_firstWholeWord.
  - by apply exec_None_iff in Hex.
Qed.

Lemma createSmartLink_no_occurrence term text :
  ¬ occursAsWholeWord term text → createSmartLink text (JString term) = Ok text.
Proof.
  intros Hno. apply exec_None_iff in Hno.
  rewrite createSmartLink_string. unfold replaceWith. by rewrite Hno.
Qed.

(** C3 -- SmartLinker.  For every text and every term: the pattern built
    from the escaped term is the term's own characters between two
    word-boundary assertions (every metacharacter is taken literally); the
    leftmost whole-word occurrence [m] of the term, compared without regard
    to case, is replaced by [[[term|m]]], with the matched text [m] as it
    stands in the document as label and the term as target, the text before
    and after it untouched; a term that occurs as a whole word has such a
    leftmost occurrence; and a text without a whole-word occurrence comes
    back unmodified.  ["A GPU is a graphics processor"] with term ["gpu"]
    gives ["A [[gpu|GPU]] is a graphics processor"]. *)
Theorem createSmartLink_links_first_whole_word (text term : string) :
  parse ("\b" +:+ escapeTerm term +:+ "\b")
    = Some (WordBoundary :: literal term ++ [WordBoundary])
  ∧ (∀ pre m post,
       firstWholeWord term text pre m post →
       createSmartLink text (JString term)
       = Ok (pre +:+ "[[" +:+ term +:+ "|" +:+ m +:+ "]]" +:+ post))
  ∧ (occursAsWholeWord term text →
       ∃ pre m post, firstWholeWord term text pre m post)
  ∧ (¬ occursAsWholeWord term text →
       createSmartLink text (JString term) = Ok text)
  ∧ createSmartLink "A GPU is a graphics processor" (JString "gpu")
    = Ok "A [[gpu|GPU]] is a graphics processor".
Proof.
  split_and!.
  - apply parse_smartLink_pattern.
  - intros pre m post. apply createSmartLink_first.
  - apply occurs_firstWholeWord.
  - apply createSmartLink_no_occurrence.
  - reflexivity.
Qed.

Lemma createSmartLink_links_first_whole_word_witness :
  createSmartLink "gpus gpu gpu" (JString "GPU")
  = Ok ("gpus " +:+ "[[" +:+ "GPU" +:+ "|" +:+ "gpu" +:+ "]]" +:+ " gpu").
Proof.
  apply (proj1 (proj2
           (createSmartLink_links_first_whole_word "gpus gpu gpu" "GPU"))).
  apply exec_firstWholeWord. reflexivity.
Defined.

(** C4, as stated, fails: ["C++"] stands alone between two spaces in
    ["I like C++ a lot"], and the text comes back without a link, because no
    word boundary lies between the final [+] and the space. *)
Lemma createSmartLink_standalone_cpp_unlinked :
  "I like C++ a lot" = "I like " +:+ "C++" +:+ " a lot"
  ∧ standalone "I like " " a lot"
  ∧ createSmartLink "I like C++ a lot" (JString "C++")
    = Ok "I like C++ a lot".
Proof. split_and!; [reflexivity|by split|reflexivity]. Qed.

(** C4, amended -- the term is matched literally, metacharacters included:
    the pattern is the term's own characters between two word-boundary
    assertions.  When an occurrence [m] of the term (up to case) begins and
    ends with a word character and stands alone, the SmartLinker links the
    leftmost whole-word occurrence, which is [m] or one before it.  A term
    ending in a character that is no word character is linked where a word
    character follows: ["C++"] in ["I like C++11 a lot"]. *)
Theorem createSmartLink_literal_standalone
    (term text pre m post : string) :
  text = pre +:+ m +:+ post →
  sameTextIgnoringCase term m = true →
  standalone pre post →
  isWordCharAt (Str.head m) = true →
  isWordCharAt (Str.last m) = true →
  parse ("\b" +:+ escapeTerm term +:+ "\b")
    = Some (WordBoundary :: literal term ++ [WordBoundary])
  ∧ (∃ pre' m' post',
       firstWholeWord term text pre' m' post'
       ∧ String.length pre' ≤ String.length pre
       ∧ createSmartLink text (JString term)
         = Ok (pre' +:+ "[[" +:+ term +:+ "|" +:+ m' +:+ "]]" +:+ post'))
  ∧ createSmartLink "I like C++11 a lot" (JString "C++")
    = Ok "I like [[C++|C++]]11 a lot".
Proof.
  intros Htext Hsame [Hpre Hpost] Hhead Hlast.
  assert (m ≠ "") as Hne by (by intros ->).
  assert (wholeWordAt term pre m post) as Hw.
  { unfold wholeWordAt, boundary. split_and!; [done|..].
    - by rewrite head_app_nonempty, Hpre, Hhead.
    - by rewrite last_app, lastFrom_nonempty, Hlast, Hpost. }
  split_and!; [apply parse_smartLink_pattern| |reflexivity].
  destruct (occurs_firstWholeWord term text) as (pre' & m' & post' & Hfirst).
  { by exists pre, m, post. }
  exists pre', m', post'. split_and!; [done| |by apply createSmartLink_first].
  destruct Hfirst as (_ & _ & Hmin). by apply (Hmin pre m post).
Qed.

Lemma createSmartLink_literal_standalone_witness :
  parse ("\b" +:+ escapeTerm "a.b" +:+ "\b")
    = Some (WordBoundary :: literal "a.b" ++ [WordBoundary])
  ∧ (∃ pre' m' post',
       firstWholeWord "a.b" "axb A.B a.b" pre' m' post'
       ∧ String.length pre' ≤ String.length "axb "
       ∧ createSmartLink "axb A.B a.b" (JString "a.b")
         = Ok (pre' +:+ "[[" +:+ "a.b" +:+ "|" +:+ m' +:+ "]]" +:+ post'))
  ∧ createSmartLink "I like C++11 a lot" (JString "C++")
    = Ok "I like [[C++|C++]]11 a lot".
Proof.
  apply (createSmartLink_literal_standalone "a.b" "axb A.B a.b"
           "axb " "A.B" " a.b");
    [reflexivity|reflexivity|split; reflexivity|reflexivity|reflexivity].
Defined.

(** ** Folder routing *)

Lemma firstMapping_Some mappings source mapping :
  firstMapping mappings source = Some mapping
  ↔ ∃ before after,
      mappings = before ++ mapping :: after
      ∧ isPrefixOf (sourcePath mapping) source
      ∧ ∀ earlier, earlier ∈ before →
          ¬ isPrefixOf (sourcePath earlier) source.
Proof.
  induction mappings as [|first rest IH]; simpl.
  - split; [done|]. intros (before & after & Heq & _). by destruct before.
  - destruct (Str.startsWith source (sourcePath first)) eqn:Hstart.
    + apply startsWith_isPrefixOf in Hstart. split.
      * intros [= <-]. exists [], rest. split_and!; [done..|].
        intros earlier Hin. by apply elem_of_nil in Hin.
      * intros (before & after & Heq & Hpre & Hearlier).
        destruct before as [|b before]; [by injection Heq as ->|].
        injection Heq as <- _. destruct (Hearlier first); [left|done].
    + assert (¬ isPrefixOf (sourcePath first) source) as Hnot.
      { intros Hp. apply startsWith_isPrefixOf in Hp. congruence. }
      rewrite IH. split.
      * intros (before & after & -> & Hpre & Hearlier).
        exists (first :: before), after. split_and!; [done..|].
        intros earlier [->|Hin]%elem_of_cons; [done|by apply Hearlier].
      * intros (before & after & Heq & Hpre & Hearlier).
        destruct before as [|b before].
        { injection Heq as -> _. done. }
        injection Heq as <- ->. exists before, after. split_and!; [done..|].
        intros earlier Hin. apply Hearlier. by right.
Qed.

Lemma firstMapping_None mappings source :
  firstMapping mappings source = None
  ↔ ∀ mapping, mapping ∈ mappings → ¬ isPrefixOf (sourcePath mapping) source.
Proof.
  induction mappings as [|first rest IH]; simpl.
  - split; [|done]. intros _ mapping Hin. by apply elem_of_nil in Hin.
  - destruct (Str.startsWith source (sourcePath first)) eqn:Hstart.
    + apply startsWith_isPrefixOf in Hstart. split; [done|].
      intros Hall. destruct (Hall first); [left|done].
    + rewrite IH. split.
      * intros Hall mapping [->|Hin]%elem_of_cons; [|by apply Hall].
        intros Hp. apply startsWith_isPrefixOf in Hp. congruence.
      * intros Hall mapping Hin. apply Hall. by right.
Qed.

(** C5 -- FolderRouter.  Without an active document the router answers
    [defaultGlossaryPath]; with one it answers the [targetPath] of the first
    mapping, in list order, whose [sourcePath] is a string prefix of the
    document's full path, and [defaultGlossaryPath] when no mapping's
    [sourcePath] is such a prefix.  One of the two cases always holds, so the
    router always answers.  The spec's three examples are instances. *)
Theorem getTargetFolder_first_prefix_match (this : TermDefinitionPlugin) :
  getTargetFolder this None = defaultGlossaryPath (settings this)
  ∧ (∀ file before mapping after,
       folderMappings (settings this) = before ++ mapping :: after →
       isPrefixOf (sourcePath mapping) (path file) →
       (∀ earlier, earlier ∈ before →
          ¬ isPrefixOf (sourcePath earlier) (path file)) →
       getTargetFolder this (Some file) = targetPath mapping)
  ∧ (∀ file,
       (∀ mapping, mapping ∈ folderMappings (settings this) →
          ¬ isPrefixOf (sourcePath mapping) (path file)) →
       getTargetFolder this (Some file) = defaultGlossaryPath (settings this))
  ∧ (∀ file,
       (∃ before mapping after,
          folderMappings (settings this) = before ++ mapping :: after
          ∧ isPrefixOf (sourcePath mapping) (path file)
          ∧ ∀ earlier, earlier ∈ before →
              ¬ isPrefixOf (sourcePath earlier) (path file))
       ∨ (∀ mapping, mapping ∈ folderMappings (settings this) →
            ¬ isPrefixOf (sourcePath mapping) (path file)))
  ∧ getTargetFolder projectsPlugin
      (Some {| path := "Projects/Notes/a.md"; basename := "a" |})
    = "Projects/Glossary"
  ∧ getTargetFolder projectsPlugin
      (Some {| path := "Other/b.md"; basename := "b" |})
    = "Glossary"
  ∧ getTargetFolder projectsPlugin None = "Glossary".
Proof.
  split_and!.
  - reflexivity.
  - intros file before mapping after Heq Hpre Hearlier. unfold getTargetFolder.
    assert (firstMapping (folderMappings (settings this)) (path file)
            = Some mapping) as ->; [|done].
    apply firstMapping_Some. by exists before, after.
  - intros file Hnone. unfold getTargetFolder.
    by apply firstMapping_None in Hnone as ->.
  - intros file.
    destruct (firstMapping (folderMappings (settings this)) (path file))
      as [mapping|] eqn:Hfirst.
    + left. apply firstMapping_Some in Hfirst as (before & after & ?).
      by exists before, mapping, after.
    + right. by apply firstMapping_None.
  - reflexivity.
  - reflexivity.
  - reflexivity.
Qed.

Lemma getTargetFolder_first_prefix_match_witness :
  getTargetFolder projectsPlugin
    (Some {| path := "Projects/Notes/a.md"; basename := "a" |})
  = targetPath {| sourcePath := "Projects";
                  targetPath := "Projects/Glossary" |}.
Proof.
  apply (proj1 (proj2 (getTargetFolder_first_prefix_match projectsPlugin))
           {| path := "Projects/Notes/a.md"; basename := "a" |} []
           {| sourcePath := "Projects"; targetPath := "Projects/Glossary" |}
           []).
  - reflexivity.
  - by exists "/Notes/a.md".
  - intros earlier Hin. by apply elem_of_nil in Hin.
Defined.

(** C10 -- a mapping with an empty [sourcePath], the shape that the Add
    button creates, matches every active document: the loop of
    [getTargetFolder] stops at that entry or at an earlier matching one and
    answers its [targetPath]; the fallback to [defaultGlossaryPath] after
    the loop is not reached. *)
Theorem getTargetFolder_empty_sourcePath
    (this : TermDefinitionPlugin) (file : TFile)
    (before after : list FolderMapping) (entry : FolderMapping) :
  folderMappings (settings this) = before ++ entry :: after →
  sourcePath entry = "" →
  ∃ mapping,
    firstMapping (folderMappings (settings this)) (path file) = Some mapping
    ∧ (mapping ∈ before ∨ mapping = entry)
    ∧ isPrefixOf (sourcePath mapping) (path file)
    ∧ getTargetFolder this (Some file) = targetPath mapping.
Proof.
  intros Heq Hempty. unfold getTargetFolder. rewrite Heq. clear Heq.
  induction before as [|first before IH]; simpl.
  - rewrite Hempty. exists entry. split_and!; [done|by right| |done].
    rewrite Hempty. by exists (path file).
  - destruct (Str.startsWith (path file) (sourcePath first)) eqn:Hstart.
    + exists first. split_and!; [done|left; left| |done].
      by apply startsWith_isPrefixOf.
    + destruct IH as (mapping & Hfirst & Hwhere & Hpre & Hres).
      exists mapping. split_and!; [done| |done|done].
      destruct Hwhere as [Hin| ->]; [left; by right|by right].
Qed.

Lemma getTargetFolder_empty_sourcePath_witness :
  ∃ mapping,
    firstMapping
      [{| sourcePath := "Projects"; targetPath := "Projects/Glossary" |};
       addedMapping]
      "Other/b.md" = Some mapping
    ∧ (mapping ∈ [{| sourcePath := "Projects";
                      targetPath := "Projects/Glossary" |}]
       ∨ mapping = addedMapping)
    ∧ isPrefixOf (sourcePath mapping) "Other/b.md"
    ∧ getTargetFolder
        {| settings :=
             {| apiEndpoint := ""; apiKey := "";
                folderMappings :=
                  [{| sourcePath := "Projects";
                      targetPath := "Projects/Glossary" |};
                   addedMapping];
                defaultGlossaryPath := "Glossary"; llmModel := "" |};
           activeFile := None |}
        (Some {| path := "Other/b.md"; basename := "b" |})
      = targetPath mapping.
Proof.
  apply (getTargetFolder_empty_sourcePath
           {| settings :=
                {| apiEndpoint := ""; apiKey := "";
                   folderMappings :=
                     [{| sourcePath := "Projects";
                         targetPath := "Projects/Glossary" |};
                      addedMapping];
                   defaultGlossaryPath := "Glossary"; llmModel := "" |};
              activeFile := None |}
           {| path := "Other/b.md"; basename := "b" |}
           [{| sourcePath := "Projects"; targetPath := "Projects/Glossary" |}]
           [] addedMapping);
    reflexivity.
Defined.

(** ** Folder chain *)

Lemma split_nonempty sep s : Str.split sep s ≠ [].
Proof.
  destruct s as [|c s]; simpl; [done|].
  destruct (Ascii.eqb c sep); [done|]. by destruct (Str.split sep s).
Qed.

Lemma join_cons sep p q rest :
  Str.join sep (p :: q :: rest) = p +:+ sep +:+ Str.join sep (q :: rest).
Proof. reflexivity. Qed.

(** Splitting at the slashes and joining with slashes gives the path back. *)
Lemma join_split s : Str.join "/" (Str.split "/" s) = s.
Proof.
  induction s as [|c s IH]; simpl; [done|].
  destruct (Ascii.eqb_spec c "/") as [->|Hne].
  - pose proof (split_nonempty "/" s) as Hs.
    destruct (Str.split "/" s) as [|q rest]; [done|].
    by rewrite join_cons, IH.
  - pose proof (split_nonempty "/" s) as Hs.
    destruct (Str.split "/" s) as [|q rest]; [done|].
    destruct rest as [|r rest].
    + simpl in *. by rewrite IH.
    + rewrite join_cons, app_cons, <- join_cons. by rewrite IH.
Qed.

Lemma accumulate_joins current segments :
  accumulate current segments
  = (λ k, current +:+ Str.join "/" (take k segments))
      <$> seq 1 (length segments).
Proof.
  revert current. induction segments as [|segment rest IH]; intros current;
    [done|].
  simpl accumulate. rewrite IH. simpl length. rewrite <- cons_seq.
  rewrite fmap_cons. f_equal.
  rewrite <- (fmap_S_seq 1), <- list_fmap_compose.
  apply list_fmap_ext. intros i k Hk. simpl.
  apply lookup_seq in Hk as [-> Hlt].
  destruct rest as [|r rest]; [simpl in Hlt; lia|].
  change (take (1 + i) (r :: rest)) with (r :: take i rest).
  cbv iota beta. by rewrite !app_assoc_str.
Qed.

Lemma folderPrefixes_accumulate path :
  folderPrefixes path = accumulate "" (Str.split "/" path).
Proof. unfold folderPrefixes. by rewrite accumulate_joins. Qed.

(** Every path of the walk extends what was accumulated before it, and
    none is longer than the whole. *)
Lemma accumulate_bounds current segments q :
  q ∈ accumulate current segments →
  isPrefixOf current q
  ∧ String.length q
    ≤ String.length current + String.length (Str.join "/" segments).
Proof.
  revert current. induction segments as [|segment rest IH]; intros current;
    cbn [accumulate].
  - intros Hin. by apply elem_of_nil in Hin.
  - intros [->|Hin]%elem_of_cons.
    + split; [by exists segment|]. rewrite length_app_str.
      destruct rest; [simpl; lia|]. rewrite join_cons, !length_app_str. lia.
    + destruct rest as [|r' rest]; [by apply elem_of_nil in Hin|].
      apply IH in Hin as [[r ->] Hlen]. split.
      * exists (segment +:+ "/" +:+ r). by rewrite !app_assoc_str.
      * revert Hlen. rewrite (join_cons _ segment), !length_app_str.
        simpl String.length. lia.
Qed.

Lemma filter_ext_elem {A} (P Q : A → Prop)
    `{!∀ x, Decision (P x), !∀ x, Decision (Q x)} (l : list A) :
  (∀ x, x ∈ l → P x ↔ Q x) → filter P l = filter Q l.
Proof.
  induction l as [|x l IH]; intros Hext; [done|].
  rewrite !filter_cons. rewrite IH by (intros y Hy; apply Hext; by right).
  destruct (decide (P x)) as [HP|HP], (decide (Q x)) as [HQ|HQ]; try done;
    apply (Hext x) in HP || apply (Hext x) in HQ; done || by left.
Qed.

Lemma occupied_after_createFolder w p q effects' :
  q ≠ p →
  occupied {| folders := {[p]} ∪ folders w; files := files w;
              effects := effects' |} q
  = occupied w q.
Proof.
  intros Hne. unfold occupied. simpl. f_equal.
  apply bool_decide_ext. set_solver.
Qed.

Lemma ensureFolders_cons segment rest current w :
  ensureFolders (segment :: rest) current w
  = if occupied w (current +:+ segment)
    then ensureFolders rest ((current +:+ segment) +:+ "/") w
    else ensureFolders rest ((current +:+ segment) +:+ "/")
           {| folders := {[current +:+ segment]} ∪ folders w;
              files := files w;
              effects := effects w ++ [CreatedFolder (current +:+ segment)] |}.
Proof.
  cbn [ensureFolders]. unfold bind, adapter_exists, createFolder, ret.
  destruct (occupied w (current +:+ segment)) eqn:Hocc; simpl; [done|].
  by rewrite Hocc.
Qed.

(** The loop of [ensureFolderExists] never throws: it creates, in the order
    of the walk, the visited paths that nothing occupied at the start, and
    touches no file. *)
Lemma ensureFolders_run segments current w :
  ∃ w',
    ensureFolders segments current w = (Ok tt, w')
    ∧ files w' = files w
    ∧ folders w'
      = list_to_set (filter (λ p, occupied w p = false)
                       (accumulate current segments)) ∪ folders w
    ∧ effects w'
      = effects w ++ (CreatedFolder <$>
                        filter (λ p, occupied w p = false)
                          (accumulate current segments)).
Proof.
  revert current w. induction segments as [|segment rest IH];
    intros current w.
  - exists w. simpl. split_and!; [done|done|set_solver|by rewrite app_nil_r].
  - rewrite ensureFolders_cons. cbn [accumulate].
    set (p := current +:+ segment). rewrite filter_cons.
    destruct (occupied w p) eqn:Hocc.
    + rewrite decide_False by done. apply IH.
    + rewrite decide_True by done.
      set (w1 := {| folders := {[p]} ∪ folders w; files := files w;
                    effects := effects w ++ [CreatedFolder p] |}).
      destruct (IH (p +:+ "/") w1) as (w' & Hrun & Hfiles & Hfolders & Heff).
      assert (filter (λ q, occupied w1 q = false) (accumulate (p +:+ "/") rest)
              = filter (λ q, occupied w q = false)
                  (accumulate (p +:+ "/") rest)) as Hsame.
      { apply filter_ext_elem. intros q Hq.
        apply accumulate_bounds in Hq as [[r ->] _].
        unfold w1. rewrite occupied_after_createFolder; [done|].
        intros Heq. apply (f_equal String.length) in Heq.
        rewrite !length_app_str in Heq. simpl in Heq. lia. }
      rewrite Hsame in Hfolders, Heff.
      exists w'. split_and!; [done|done|..].
      * rewrite Hfolders. simpl. set_solver.
      * rewrite Heff. simpl. by rewrite <- app_assoc.
Qed.

Lemma missingFolders_accumulate w path :
  missingFolders w path
  = filter (λ p, occupied w p = false) (accumulate "" (Str.split "/" path)).
Proof. unfold missingFolders. by rewrite folderPrefixes_accumulate. Qed.

Lemma ensureFolderExists_run path w :
  ∃ w',
    ensureFolderExists path w = (Ok tt, w')
    ∧ files w' = files w
    ∧ folders w' = list_to_set (missingFolders w path) ∪ folders w
    ∧ effects w' = effects w ++ (CreatedFolder <$> missingFolders w path).
Proof.
  rewrite missingFolders_accumulate. apply ensureFolders_run.
Qed.

Lemma folderPrefixes_length path q :
  q ∈ folderPrefixes path → String.length q ≤ String.length path.
Proof.
  rewrite folderPrefixes_accumulate. intros Hq.
  apply accumulate_bounds in Hq as [_ Hlen]. by rewrite join_split in Hlen.
Qed.

(** ** Note materialisation *)

Lemma isTermDefinition_Get v term text :
  isTermDefinition v term text →
  Get v "term" = Ok (JString term)
  ∧ Get v "definition" = Ok (JString text)
  ∧ interpolate v = Ok "[object Object]"
  ∧ ToBoolean v = true.
Proof.
  intros (props & -> & Hterm & Htext & Hnone). unfold Get, interpolate.
  simpl. by rewrite Hterm, Htext, Hnone.
Qed.

Lemma noteContent_body source text :
  Str.join Str.LF [text; ""; sourceLine source] = noteBodyOf source text.
Proof.
  unfold noteBodyOf. destruct source as [file|]; simpl.
  - by rewrite app_empty_l.
  - by rewrite app_empty_l, app_empty_r.
Qed.

Lemma notePath_not_folderPrefix this term :
  notePathOf this term
  ∉ folderPrefixes (getTargetFolder this (activeFile this)).
Proof.
  intros Hin. apply folderPrefixes_length in Hin. unfold notePathOf in Hin.
  rewrite !length_app_str in Hin. simpl in Hin. lia.
Qed.

(** What [createDefinitionNote] does with a [TermDefinition]: the folder
    chain first, then the file, unless its path is occupied. *)
Lemma createDefinitionNote_run this v term text w :
  isTermDefinition v term text →
  ∃ w1,
    ensureFolderExists (getTargetFolder this (activeFile this)) w
    = (Ok tt, w1)
    ∧ files w1 = files w
    ∧ effects w1
      = effects w ++ (CreatedFolder <$>
          missingFolders w (getTargetFolder this (activeFile this)))
    ∧ occupied w1 (notePathOf this term) = occupied w (notePathOf this term)
    ∧ createDefinitionNote this v w
      = if occupied w (notePathOf this term)
        then (Throw NoteAlreadyExists, w1)
        else (Ok (Str.replace ".md" "" (notePathOf this term)),
              {| folders := folders w1;
                 files := <[notePathOf this term :=
                              noteBodyOf (activeFile this) text]> (files w1);
                 effects := effects w1 ++
                   [CreatedFile (notePathOf this term)
                      (noteBodyOf (activeFile this) text)] |}).
Proof.
  intros Hdef. apply isTermDefinition_Get in Hdef as (Hterm & Htext & _).
  destruct (ensureFolderExists_run (getTargetFolder this (activeFile this)) w)
    as (w1 & Hrun & Hfiles & Hfolders & Heff).
  assert (occupied w1 (notePathOf this term)
          = occupied w (notePathOf this term)) as Hocc.
  { unfold occupied. rewrite Hfiles, Hfolders. f_equal.
    apply bool_decide_ext. rewrite elem_of_union, elem_of_list_to_set.
    unfold missingFolders. rewrite list_elem_of_filter.
    pose proof (notePath_not_folderPrefix this term). tauto. }
  exists w1. split_and!; [done..|].
  unfold createDefinitionNote, bind, lift. rewrite Hrun, Htext, Hterm.
  cbn [joinElement interpolate ToString]. rewrite noteContent_body.
  fold (notePathOf this term). unfold create, ret. rewrite Hocc.
  by destruct (occupied w (notePathOf this term)).
Qed.

Lemma occupied_true_iff w p :
  occupied w p = true ↔ p ∈ folders w ∨ is_Some (files w !! p).
Proof.
  unfold occupied. rewrite orb_true_iff, !bool_decide_eq_true. done.
Qed.

Lemma filter_none {A} (P : A → Prop) `{!∀ x, Decision (P x)} (l : list A) :
  (∀ x, x ∈ l → ¬ P x) → filter P l = [].
Proof.
  induction l as [|x l IH]; intros Hnone; [done|].
  rewrite filter_cons_False by (apply Hnone; by left).
  apply IH. intros y Hy. apply Hnone. by right.
Qed.

(** Once the chain has been ensured, none of its folders is missing. *)
Lemma missingFolders_after path w w' :
  files w' = files w →
  folders w' = list_to_set (missingFolders w path) ∪ folders w →
  missingFolders w' path = [].
Proof.
  intros Hfiles Hfolders. unfold missingFolders at 1.
  apply filter_none. intros q Hq Hfree.
  assert (occupied w' q = true) as Hocc; [|congruence].
  apply occupied_true_iff. rewrite Hfiles, Hfolders.
  destruct (occupied w q) eqn:Hw.
  - apply occupied_true_iff in Hw. set_solver.
  - left. apply elem_of_union_l, elem_of_list_to_set.
    unfold missingFolders. by apply list_elem_of_filter.
Qed.

Lemma createDefinitionNote_effects this v w :
  ∃ tail,
    effects (snd (createDefinitionNote this v w))
    = effects w
      ++ (CreatedFolder <$>
            missingFolders w (getTargetFolder this (activeFile this)))
      ++ tail
    ∧ (tail = [] ∨ ∃ notePath body, tail = [CreatedFile notePath body]).
Proof.
  destruct (ensureFolderExists_run (getTargetFolder this (activeFile this)) w)
    as (w1 & Hrun & _ & _ & Heff).
  unfold createDefinitionNote, bind, lift. rewrite Hrun.
  assert (∃ tail, effects w1 = effects w ++
            (CreatedFolder <$>
               missingFolders w (getTargetFolder this (activeFile this)))
            ++ tail
          ∧ (tail = [] ∨ ∃ notePath body, tail = [CreatedFile notePath body]))
    as Hstop.
  { exists []. rewrite app_nil_r. by split; [|left]. }
  destruct (Get v "definition") as [text|]; [|done].
  destruct (joinElement text) as [body|]; [|done].
  destruct (Get v "term") as [term|]; [|done].
  destruct (interpolate term) as [stem|]; [|done].
  unfold create, ret.
  destruct (occupied w1 _); [done|]. simpl. rewrite Heff.
  eexists. rewrite <- app_assoc. split; [done|]. right. by eexists _, _.
Qed.

(** C6 -- NoteMaterializer, folder chain.  For every folder path and every
    vault, [ensureFolderExists] walks the accumulated prefixes of the path's
    slash-separated segments from left to right and creates exactly those
    that nothing occupied, in that order; it never throws, touches no file,
    and run again it creates nothing.  In [createDefinitionNote] these
    creations come before the one file write, if there is one.  For
    ["A/B/C"] with none of [A], [A/B], [A/B/C] present, the three are created
    in that order. *)
Theorem ensureFolderExists_creates_missing_prefixes
    (path : string) (w : World) :
  (∃ w',
     ensureFolderExists path w = (Ok tt, w')
     ∧ effects w' = effects w ++ (CreatedFolder <$> missingFolders w path)
     ∧ folders w' = list_to_set (missingFolders w path) ∪ folders w
     ∧ files w' = files w
     ∧ ∃ w'',
         ensureFolderExists path w' = (Ok tt, w'')
         ∧ effects w'' = effects w'
         ∧ folders w'' = folders w'
         ∧ files w'' = files w')
  ∧ (∀ this definition,
       getTargetFolder this (activeFile this) = path →
       ∃ tail,
         effects (snd (createDefinitionNote this definition w))
         = effects w ++ (CreatedFolder <$> missingFolders w path) ++ tail
         ∧ (tail = [] ∨ ∃ notePath body, tail = [CreatedFile notePath body]))
  ∧ folderPrefixes "A/B/C" = ["A"; "A/B"; "A/B/C"]
  ∧ (path = "A/B/C" →
     occupied w "A" = false →
     occupied w "A/B" = false →
     occupied w "A/B/C" = false →
     effects (snd (ensureFolderExists path w))
     = effects w
       ++ [CreatedFolder "A"; CreatedFolder "A/B"; CreatedFolder "A/B/C"]).
Proof.
  destruct (ensureFolderExists_run path w)
    as (w' & Hrun & Hfiles & Hfolders & Heff).
  split_and!.
  - exists w'. split_and!; [done..|].
    destruct (ensureFolderExists_run path w')
      as (w'' & Hrun' & Hfiles' & Hfolders' & Heff').
    rewrite (missingFolders_after path w w') in Hfolders', Heff' by done.
    exists w''. split_and!; [done| |set_solver|done].
    by rewrite Heff', app_nil_r.
  - intros this definition <-. apply createDefinitionNote_effects.
  - reflexivity.
  - intros -> HA HAB HABC. rewrite Hrun. simpl. rewrite Heff. f_equal.
    unfold missingFolders.
    change (folderPrefixes "A/B/C") with ["A"; "A/B"; "A/B/C"].
    by rewrite !filter_cons, !decide_True.
Qed.

Lemma ensureFolderExists_creates_missing_prefixes_witness :
  effects (snd (ensureFolderExists "A/B/C" emptyWorld))
  = effects emptyWorld
    ++ [CreatedFolder "A"; CreatedFolder "A/B"; CreatedFolder "A/B/C"].
Proof.
  apply (proj2 (proj2 (proj2
           (ensureFolderExists_creates_missing_prefixes "A/B/C" emptyWorld))));
    reflexivity.
Defined.

(** ** The pipeline *)

Lemma ToBoolean_selection selectedText :
  selectedText ≠ "" → ToBoolean (JString selectedText) = true.
Proof.
  intros Hne. simpl. apply negb_true_iff. by apply String.eqb_neq.
Qed.

(** A run on a [TermDefinition]: it stops at an occupied note path with the
    failure notice, and otherwise writes the note, replaces the selection and
    gives the success notice. *)
Lemma handleTermDefinition_run this selectedText v term text w :
  selectedText ≠ "" →
  isTermDefinition v term text →
  ∃ w',
    handleTermDefinition this selectedText (Parsed v) w = (Ok tt, w')
    ∧ if occupied w (notePathOf this term)
      then
        files w' = files w
        ∧ effects w'
          = effects w
            ++ (CreatedFolder <$>
                  missingFolders w (getTargetFolder this (activeFile this)))
            ++ [ConsoleError "Error handling term definition:";
                Notice "Error creating term definition"]
      else
        files w'
        = <[notePathOf this term := noteBodyOf (activeFile this) text]>
            (files w)
        ∧ effects w'
          = effects w
            ++ (CreatedFolder <$>
                  missingFolders w (getTargetFolder this (activeFile this)))
            ++ [CreatedFile (notePathOf this term)
                  (noteBodyOf (activeFile this) text);
                ReplacedSelection
                  (Str.replace "[object Object]" "undefined"
                     (replaceWith
                        (WordBoundary :: literal term ++ [WordBoundary])
                        (linkOf term) selectedText));
                Notice "Term definition created successfully"].
Proof.
  intros Hsel Hdef.
  destruct (createDefinitionNote_run this v term text w Hdef)
    as (w1 & _ & Hfiles & Heff & _ & Hnote).
  apply isTermDefinition_Get in Hdef as (Hterm & _ & Hprint & Htrue).
  unfold handleTermDefinition. rewrite (ToBoolean_selection _ Hsel).
  cbn [negb]. unfold tryCatch, bind at 1, getDefinitionFromLLM, ret.
  rewrite Htrue. cbn [negb]. unfold bind at 1. rewrite Hnote.
  destruct (occupied w (notePathOf this term)).
  - eexists. split; [reflexivity|]. simpl. rewrite Hfiles, Heff.
    by rewrite <- !app_assoc.
  - unfold bind, lift. rewrite Hterm, createSmartLink_string, Hprint.
    eexists. split; [reflexivity|]. simpl. rewrite Hfiles, Heff.
    by rewrite <- !app_assoc.
Qed.

Lemma replace_no_occurrence pattern replacement s :
  Str.occursIn pattern s = false → Str.replace pattern replacement s = s.
Proof.
  induction s as [|c s IH]; simpl.
  - by destruct (Str.stripPrefix pattern "").
  - destruct (Str.stripPrefix pattern (String c s)); [done|].
    intros Hno. by rewrite IH.
Qed.

Lemma stripPrefix_md_app stem :
  stem ≠ "" → Str.stripPrefix ".md" stem = None →
  Str.stripPrefix ".md" (stem +:+ ".md") = None.
Proof.
  intros Hne Hnone. apply stripPrefix_None. intros r Heq.
  change (".md" +:+ r) with (String "." (String "m" (String "d" r))) in Heq.
  destruct stem as [|a [|b [|c rest]]]; [done|..];
    rewrite ?app_cons, ?app_empty_l in Heq.
  - change ".md" with (String "." (String "m" (String "d" ""))) in Heq.
    by injection Heq.
  - change ".md" with (String "." (String "m" (String "d" ""))) in Heq.
    by injection Heq.
  - injection Heq as -> -> -> _. by simpl in Hnone.
Qed.

(** When [".md"] occurs nowhere in the stem, [replace(".md", "")] strips
    the extension. *)
Lemma replace_md_extension stem :
  Str.occursIn ".md" stem = false →
  Str.replace ".md" "" (stem +:+ ".md") = stem.
Proof.
  induction stem as [|c stem IH]; [done|].
  intros Hno. cbn [Str.occursIn] in Hno.
  destruct (Str.stripPrefix ".md" (String c stem)) eqn:Hstrip; [done|].
  pose proof (stripPrefix_md_app (String c stem) ltac:(done) Hstrip) as Hnone.
  rewrite app_cons in Hnone |- *. cbn [Str.replace]. rewrite Hnone.
  f_equal. by apply IH.
Qed.

(** C7 -- a [TermDefinition] whose note path holds a file: the note is not
    materialised ([NoteAlreadyExists]), every file keeps its content, the
    existing one included, no file is created under another name, and the
    run ends with the failure notice without replacing the selection. *)
Theorem existing_note_is_kept
    (this : TermDefinitionPlugin) (selectedText : string)
    (definition : JSValue) (term text existing : string) (w : World) :
  selectedText ≠ "" →
  isTermDefinition definition term text →
  files w !! notePathOf this term = Some existing →
  fst (createDefinitionNote this definition w) = Throw NoteAlreadyExists
  ∧ files (snd (createDefinitionNote this definition w)) = files w
  ∧ ∃ w' new,
      handleTermDefinition this selectedText (Parsed definition) w
      = (Ok tt, w')
      ∧ files w' = files w
      ∧ files w' !! notePathOf this term = Some existing
      ∧ effects w' = effects w ++ new
      ∧ (∀ replaced, ReplacedSelection replaced ∉ new)
      ∧ (∀ notePath body, CreatedFile notePath body ∉ new)
      ∧ List.last new (Notice "") = Notice "Error creating term definition".
Proof.
  intros Hsel Hdef Hfile.
  assert (occupied w (notePathOf this term) = true) as Hocc.
  { apply occupied_true_iff. right. by rewrite Hfile. }
  destruct (createDefinitionNote_run this definition term text w Hdef)
    as (w1 & _ & Hfiles1 & _ & _ & Hnote).
  destruct (handleTermDefinition_run this selectedText definition term text w
              Hsel Hdef) as (w' & Hrun & Hw').
  rewrite Hocc in Hnote, Hw'. destruct Hw' as [Hfiles Heff].
  rewrite Hnote. split_and!; [done|done|].
  eexists w', _. split_and!; [done|done|by rewrite Hfiles|exact Heff|..].
  - intros replaced [Hin|Hin]%elem_of_app.
    + by apply list_elem_of_fmap in Hin as (? & ? & _).
    + set_solver.
  - intros notePath body [Hin|Hin]%elem_of_app.
    + by apply list_elem_of_fmap in Hin as (? & ? & _).
    + set_solver.
  - change [ConsoleError "Error handling term definition:";
            Notice "Error creating term definition"]
      with ([ConsoleError "Error handling term definition:"]
            ++ [Notice "Error creating term definition"]).
    rewrite app_assoc. apply List.last_last.
Qed.

Lemma existing_note_is_kept_witness :
  fst (createDefinitionNote defaultPlugin (termDefinition "gpu" "a chip")
         vaultWithNote)
  = Throw NoteAlreadyExists
  ∧ files (snd (createDefinitionNote defaultPlugin
                  (termDefinition "gpu" "a chip") vaultWithNote))
    = files vaultWithNote
  ∧ ∃ w' new,
      handleTermDefinition defaultPlugin "A GPU"
        (Parsed (termDefinition "gpu" "a chip")) vaultWithNote
      = (Ok tt, w')
      ∧ files w' = files vaultWithNote
      ∧ files w' !! notePathOf defaultPlugin "gpu" = Some "old"
      ∧ effects w' = effects vaultWithNote ++ new
      ∧ (∀ replaced, ReplacedSelection replaced ∉ new)
      ∧ (∀ notePath body, CreatedFile notePath body ∉ new)
      ∧ List.last new (Notice "") = Notice "Error creating term definition".
Proof.
  apply (existing_note_is_kept defaultPlugin "A GPU"
           (termDefinition "gpu" "a chip") "gpu" "a chip" "old"
           vaultWithNote).
  - discriminate.
  - eexists. split_and!; reflexivity.
  - reflexivity.
Defined.

(** C8 -- the body of the created note.  For every [TermDefinition] whose
    note path is free, the note is created with the definition text, a
    blank line and then the line [- Source: [[<basename>]]] when a source
    document is known; without a source document the body is the definition
    text and the blank line only. *)
Theorem created_note_body
    (this : TermDefinitionPlugin) (definition : JSValue)
    (term text : string) (w : World) :
  isTermDefinition definition term text →
  occupied w (notePathOf this term) = false →
  ∃ identifier w' body,
    createDefinitionNote this definition w = (Ok identifier, w')
    ∧ files w' !! notePathOf this term = Some body
    ∧ List.last (effects w') (Notice "")
      = CreatedFile (notePathOf this term) body
    ∧ (∀ file, activeFile this = Some file →
         body = text +:+ Str.LF +:+ Str.LF
                  +:+ "- Source: [[" +:+ basename file +:+ "]]")
    ∧ (activeFile this = None → body = text +:+ Str.LF +:+ Str.LF).
Proof.
  intros Hdef Hfree.
  destruct (createDefinitionNote_run this definition term text w Hdef)
    as (w1 & _ & _ & _ & _ & Hnote).
  rewrite Hfree in Hnote. rewrite Hnote.
  eexists _, _, (noteBodyOf (activeFile this) text).
  split_and!; [done|..].
  - simpl. apply lookup_insert_eq.
  - simpl. apply List.last_last.
  - by intros file ->.
  - by intros ->.
Qed.

Lemma created_note_body_witness :
  ∃ identifier w' body,
    createDefinitionNote
      {| settings := DEFAULT_SETTINGS;
         activeFile := Some {| path := "Notes/a.md"; basename := "a" |} |}
      (termDefinition "gpu" "a chip") emptyWorld
    = (Ok identifier, w')
    ∧ files w'
        !! notePathOf
             {| settings := DEFAULT_SETTINGS;
                activeFile :=
                  Some {| path := "Notes/a.md"; basename := "a" |} |}
             "gpu"
      = Some body
    ∧ List.last (effects w') (Notice "")
      = CreatedFile
          (notePathOf
             {| settings := DEFAULT_SETTINGS;
                activeFile :=
                  Some {| path := "Notes/a.md"; basename := "a" |} |}
             "gpu")
          body
    ∧ (∀ file,
         activeFile
           {| settings := DEFAULT_SETTINGS;
              activeFile :=
                Some {| path := "Notes/a.md"; basename := "a" |} |}
         = Some file →
         body = "a chip" +:+ Str.LF +:+ Str.LF
                  +:+ "- Source: [[" +:+ basename file +:+ "]]")
    ∧ (activeFile
         {| settings := DEFAULT_SETTINGS;
            activeFile := Some {| path := "Notes/a.md"; basename := "a" |} |}
       = None →
       body = "a chip" +:+ Str.LF +:+ Str.LF).
Proof.
  apply (created_note_body
           {| settings := DEFAULT_SETTINGS;
              activeFile :=
                Some {| path := "Notes/a.md"; basename := "a" |} |}
           (termDefinition "gpu" "a chip") "gpu" "a chip" emptyWorld).
  - eexists. split_and!; reflexivity.
  - reflexivity.
Defined.

(** C9, as stated, fails: [createDefinitionNote] returns ["Glossary/gpu"],
    and the link that the same run puts into the document targets ["gpu"];
    the returned identifier is dropped by [handleTermDefinition]. *)
Lemma link_target_is_not_the_note_identifier :
  fst (createDefinitionNote defaultPlugin (termDefinition "gpu" "a chip")
         emptyWorld)
  = Ok "Glossary/gpu"
  ∧ effects (snd (handleTermDefinition defaultPlugin
                    "A GPU is a graphics processor"
                    (Parsed (termDefinition "gpu" "a chip")) emptyWorld))
    = [CreatedFolder "Glossary";
       CreatedFile "Glossary/gpu.md" ("a chip" +:+ Str.LF +:+ Str.LF);
       ReplacedSelection "A [[gpu|GPU]] is a graphics processor";
       Notice "Term definition created successfully"].
Proof. split; reflexivity. Qed.

(** C9, amended -- for a [TermDefinition] whose note path is free and
    holds [".md"] only as its extension, [createDefinitionNote] returns the
    note's path without the extension.  The pipeline does not use that
    identifier: the text that a successful run puts into the document is
    the same whatever the plugin's routing and the vault are, that is,
    wherever the note went; and when the SmartLinker output does not hold
    the string ["[object Object]"], that text is the selection with the
    leftmost whole-word occurrence [m] of the term replaced by
    [[[term|m]]], a link whose target is the parsed term. *)
Theorem note_identifier_and_link_target
    (this : TermDefinitionPlugin) (selectedText : string)
    (definition : JSValue) (term text : string) (w : World) :
  selectedText ≠ "" →
  isTermDefinition definition term text →
  occupied w (notePathOf this term) = false →
  Str.occursIn ".md"
    (getTargetFolder this (activeFile this) +:+ "/" +:+ term) = false →
  fst (createDefinitionNote this definition w)
  = Ok (getTargetFolder this (activeFile this) +:+ "/" +:+ term)
  ∧ (∃ replaced,
       ∀ this' w',
         occupied w' (notePathOf this' term) = false →
         ∃ w'' before,
           handleTermDefinition this' selectedText (Parsed definition) w'
           = (Ok tt, w'')
           ∧ effects w''
             = before
               ++ [ReplacedSelection replaced;
                   Notice "Term definition created successfully"])
  ∧ ∀ pre m post,
      firstWholeWord term selectedText pre m post →
      Str.occursIn "[object Object]"
        (pre +:+ "[[" +:+ term +:+ "|" +:+ m +:+ "]]" +:+ post) = false →
      ∃ w' before,
        handleTermDefinition this selectedText (Parsed definition) w
        = (Ok tt, w')
        ∧ effects w'
          = before
            ++ [ReplacedSelection
                  (pre +:+ "[[" +:+ term +:+ "|" +:+ m +:+ "]]" +:+ post);
                Notice "Term definition created successfully"].
Proof.
  intros Hsel Hdef Hfree Hmd. split_and!.
  - destruct (createDefinitionNote_run this definition term text w Hdef)
      as (w1 & _ & _ & _ & _ & Hnote).
    rewrite Hfree in Hnote. rewrite Hnote. simpl. f_equal.
    unfold notePathOf.
    rewrite <- (app_assoc_str _ "/"), <- (app_assoc_str _ term).
    rewrite replace_md_extension; [by rewrite app_assoc_str|].
    by rewrite app_assoc_str.
  - exists (Str.replace "[object Object]" "undefined"
              (replaceWith (WordBoundary :: literal term ++ [WordBoundary])
                 (linkOf term) selectedText)).
    intros this' w' Hfree'.
    destruct (handleTermDefinition_run this' selectedText definition term text
                w' Hsel Hdef) as (w'' & Hrun & Hw'').
    rewrite Hfree' in Hw''. destruct Hw'' as [_ Heff].
    exists w'',
      (effects w'
       ++ (CreatedFolder <$>
             missingFolders w' (getTargetFolder this' (activeFile this')))
       ++ [CreatedFile (notePathOf this' term)
             (noteBodyOf (activeFile this') text)]).
    split; [done|]. rewrite Heff. by rewrite <- !app_assoc.
  - intros pre m post Hfirst Hplain.
    destruct (handleTermDefinition_run this selectedText definition term text
                w Hsel Hdef) as (w' & Hrun & Hw').
    rewrite Hfree in Hw'. destruct Hw' as [_ Heff].
    pose proof (createSmartLink_first _ _ _ _ _ Hfirst) as Hlink.
    rewrite createSmartLink_string in Hlink. injection Hlink as Hlink.
    rewrite Hlink, replace_no_occurrence in Heff by done.
    exists w',
      (effects w
       ++ (CreatedFolder <$>
             missingFolders w (getTargetFolder this (activeFile this)))
       ++ [CreatedFile (notePathOf this term)
             (noteBodyOf (activeFile this) text)]).
    split; [done|]. rewrite Heff. by rewrite <- !app_assoc.
Qed.

Lemma note_identifier_and_link_target_witness :
  fst (createDefinitionNote defaultPlugin (termDefinition "gpu" "a chip")
         emptyWorld)
  = Ok (getTargetFolder defaultPlugin (activeFile defaultPlugin)
          +:+ "/" +:+ "gpu")
  ∧ (∃ replaced,
       ∀ this' w',
         occupied w' (notePathOf this' "gpu") = false →
         ∃ w'' before,
           handleTermDefinition this' "A GPU is a graphics processor"
             (Parsed (termDefinition "gpu" "a chip")) w'
           = (Ok tt, w'')
           ∧ effects w''
             = before
               ++ [ReplacedSelection replaced;
                   Notice "Term definition created successfully"])
  ∧ ∀ pre m post,
      firstWholeWord "gpu" "A GPU is a graphics processor" pre m post →
      Str.occursIn "[object Object]"
        (pre +:+ "[[" +:+ "gpu" +:+ "|" +:+ m +:+ "]]" +:+ post) = false →
      ∃ w' before,
        handleTermDefinition defaultPlugin "A GPU is a graphics processor"
          (Parsed (termDefinition "gpu" "a chip")) emptyWorld
        = (Ok tt, w')
        ∧ effects w'
          = before
            ++ [ReplacedSelection
                  (pre +:+ "[[" +:+ "gpu" +:+ "|" +:+ m +:+ "]]" +:+ post);
                Notice "Term definition created successfully"].
Proof.
  apply (note_identifier_and_link_target defaultPlugin
           "A GPU is a graphics processor" (termDefinition "gpu" "a chip")
           "gpu" "a chip" emptyWorld).
  - discriminate.
  - eexists. split_and!; reflexivity.
  - reflexivity.
  - reflexivity.
Defined.

(** ** Response handling *)

(** C1, as stated, fails: the payload [{}] parses, [getDefinitionFromLLM]
    returns the object although it has neither [term] nor [definition], and
    the run creates the folder [Glossary] and the note
    [Glossary/undefined.md] before it fails in [createSmartLink]; with both
    fields present and empty the run creates [Glossary/.md] and ends with
    the success notice. *)
Lemma payload_without_fields_creates_note :
  fst (getDefinitionFromLLM (Parsed (JObject [])) emptyWorld)
  = Ok (JObject [])
  ∧ Get (JObject []) "term" = Ok JUndefined
  ∧ Get (JObject []) "definition" = Ok JUndefined
  ∧ effects (snd (handleTermDefinition defaultPlugin "x"
                    (Parsed (JObject [])) emptyWorld))
    = [CreatedFolder "Glossary";
       CreatedFile "Glossary/undefined.md" (Str.LF +:+ Str.LF);
       ConsoleError "Error handling term definition:";
       Notice "Error creating term definition"]
  ∧ effects (snd (handleTermDefinition defaultPlugin "x"
                    (Parsed (termDefinition "" "")) emptyWorld))
    = [CreatedFolder "Glossary";
       CreatedFile "Glossary/.md" (Str.LF +:+ Str.LF);
       ReplacedSelection "[[|]]x";
       Notice "Term definition created successfully"].
Proof. split_and!; reflexivity. Qed.

(** C1, amended -- for every outcome of the call, [getDefinitionFromLLM]
    returns (it never throws); it returns [null] exactly when the request or
    the parse threw or the payload is the JSON [null], and returns any other
    parsed value unchanged, without looking at [term] or [definition].  When
    the returned value is falsy the run stops before any vault mutation: no
    folder and no file is created, the selection is not replaced, and the
    run ends with the notice of the failed call. *)
Theorem falsy_reply_aborts_before_vault
    (this : TermDefinitionPlugin) (selectedText : string)
    (reply : LLMReply) (w : World) :
  ∃ returned,
    fst (getDefinitionFromLLM reply w) = Ok returned
    ∧ (returned = JNull ↔ parseFailed reply ∨ reply = Parsed JNull)
    ∧ (∀ parsed, reply = Parsed parsed → returned = parsed)
    ∧ (selectedText ≠ "" →
       ToBoolean returned = false →
       ∃ w' new,
         handleTermDefinition this selectedText reply w = (Ok tt, w')
         ∧ folders w' = folders w
         ∧ files w' = files w
         ∧ effects w' = effects w ++ new
         ∧ (∀ folder, CreatedFolder folder ∉ new)
         ∧ (∀ notePath body, CreatedFile notePath body ∉ new)
         ∧ (∀ replaced, ReplacedSelection replaced ∉ new)
         ∧ List.last new (Notice "")
           = Notice "Failed to get definition from API").
Proof.
  assert (∀ failed : LLMReply,
            parseFailed failed →
            getDefinitionFromLLM failed w
            = (Ok JNull,
               {| folders := folders w; files := files w;
                  effects := effects w
                    ++ [ConsoleError "Error calling LLM API:"] |}))
    as Hfailed.
  { intros failed Hf. destruct failed as [| | | |v]; try reflexivity.
    by destruct (Hf v). }
  assert (∀ failed : LLMReply,
            parseFailed failed →
            selectedText ≠ "" →
            ∃ w' new,
              handleTermDefinition this selectedText failed w = (Ok tt, w')
              ∧ folders w' = folders w
              ∧ files w' = files w
              ∧ effects w' = effects w ++ new
              ∧ (∀ folder, CreatedFolder folder ∉ new)
              ∧ (∀ notePath body, CreatedFile notePath body ∉ new)
              ∧ (∀ replaced, ReplacedSelection replaced ∉ new)
              ∧ List.last new (Notice "")
                = Notice "Failed to get definition from API") as Hstop.
  { intros failed Hf Hsel. unfold handleTermDefinition.
    rewrite (ToBoolean_selection _ Hsel). cbn [negb].
    unfold tryCatch, bind at 1. rewrite (Hfailed failed Hf).
    eexists _, [ConsoleError "Error calling LLM API:";
                Notice "Failed to get definition from API"].
    split_and!; [reflexivity|done|done| |set_solver..|done].
    simpl. by rewrite <- app_assoc. }
  destruct reply as [| | | |v].
  1-4: (exists JNull; split_and!;
        [reflexivity|split; [by left|done]|done|
         intros Hsel _; by apply Hstop]).
  exists v. split_and!; [reflexivity| |by intros ? [= ->]|].
  - split; [intros ->; by right|].
    intros [Hf|[= ->]]; [by destruct (Hf v)|done].
  - intros Hsel Hfalsy. unfold handleTermDefinition.
    rewrite (ToBoolean_selection _ Hsel). cbn [negb].
    unfold tryCatch, bind at 1, getDefinitionFromLLM, ret. rewrite Hfalsy.
    eexists _, [Notice "Failed to get definition from API"].
    split_and!; [reflexivity|done|done|done|set_solver..|done].
Qed.

Lemma falsy_reply_aborts_before_vault_witness :
  ∃ w' new,
    handleTermDefinition defaultPlugin "A GPU" (Parsed (JNumber "0"))
      emptyWorld
    = (Ok tt, w')
    ∧ folders w' = folders emptyWorld
    ∧ files w' = files emptyWorld
    ∧ effects w' = effects emptyWorld ++ new
    ∧ (∀ folder, CreatedFolder folder ∉ new)
    ∧ (∀ notePath body, CreatedFile notePath body ∉ new)
    ∧ (∀ replaced, ReplacedSelection replaced ∉ new)
    ∧ List.last new (Notice "") = Notice "Failed to get definition from API".
Proof.
  destruct (falsy_reply_aborts_before_vault defaultPlugin "A GPU"
              (Parsed (JNumber "0")) emptyWorld)
    as (returned & _ & _ & Hsame & Hstop).
  rewrite (Hsame (JNumber "0") eq_refl) in Hstop.
  apply Hstop; [discriminate|reflexivity].
Defined.

(** C2, the run that breaks it: the selection
    ["JSON prints [object Object]"] with the term ["json"].  The SmartLinker
    output is ["[[json|JSON]] prints [object Object]"], and line 90 of
    [handleTermDefinition] rewrites it before the replacement: the editor
    receives ["[[json|JSON]] prints undefined"]. *)
Theorem replaceSelection_receives_rewritten_text :
  createSmartLink "JSON prints [object Object]" (JString "json")
  = Ok "[[json|JSON]] prints [object Object]"
  ∧ effects (snd (handleTermDefinition defaultPlugin
                    "JSON prints [object Object]"
                    (Parsed (termDefinition "json" "a format")) emptyWorld))
    = [CreatedFolder "Glossary";
       CreatedFile "Glossary/json.md" ("a format" +:+ Str.LF +:+ Str.LF);
       ReplacedSelection "[[json|JSON]] prints undefined";
       Notice "Term definition created successfully"].
Proof. split; reflexivity. Qed.

(** * Further properties of the code *)

(** ** The folder chain after [ensureFolderExists] *)

Lemma folderPrefixes_whole path : path ∈ folderPrefixes path.
Proof.
  unfold folderPrefixes. apply list_elem_of_fmap.
  pose proof (split_nonempty "/" path) as Hne.
  exists (length (Str.split "/" path)). split.
  - by rewrite take_ge, join_split.
  - apply elem_of_seq. destruct (Str.split "/" path); [done|]. simpl. lia.
Qed.

(** After [ensureFolderExists(path)] the path and every accumulated prefix
    of it is occupied, and whatever was occupied before still is. *)
Theorem ensureFolderExists_establishes_chain (path : string) (w : World) :
  ∃ w',
    ensureFolderExists path w = (Ok tt, w')
    ∧ (∀ q, q ∈ folderPrefixes path → occupied w' q = true)
    ∧ occupied w' path = true
    ∧ (∀ q, occupied w q = true → occupied w' q = true).
Proof.
  destruct (ensureFolderExists_run path w)
    as (w' & Hrun & Hfiles & Hfolders & _).
  assert (∀ q, occupied w q = true → occupied w' q = true) as Hkeep.
  { intros q Hq. apply occupied_true_iff in Hq. apply occupied_true_iff.
    rewrite Hfiles, Hfolders. set_solver. }
  assert (∀ q, q ∈ folderPrefixes path → occupied w' q = true) as Hchain.
  { intros q Hq. destruct (occupied w q) eqn:Hw; [by apply Hkeep|].
    apply occupied_true_iff. left. rewrite Hfolders.
    apply elem_of_union_l, elem_of_list_to_set.
    unfold missingFolders. by apply list_elem_of_filter. }
  exists w'. split_and!; [done|done| |done].
  apply Hchain, folderPrefixes_whole.
Qed.

(** ** [createSmartLink] at its edges *)

Lemma hasWordChar_app a b :
  hasWordChar (a +:+ b) = hasWordChar a || hasWordChar b.
Proof.
  induction a as [|c a IH]; [done|]. rewrite app_cons. simpl.
  by rewrite IH, orb_assoc.
Qed.

Lemma hasWordChar_false_lastFrom prev s :
  isWordCharAt prev = false → hasWordChar s = false →
  isWordCharAt (Str.lastFrom prev s) = false.
Proof.
  revert prev. induction s as [|c s IH]; intros prev Hprev Hs; [done|].
  simpl in *. apply orb_false_iff in Hs as [Hc Hs]. by apply IH.
Qed.

Lemma hasWordChar_false_head s :
  hasWordChar s = false → isWordCharAt (Str.head s) = false.
Proof.
  destruct s as [|c s]; [done|]. simpl. by intros [? _]%orb_false_iff.
Qed.

Lemma app_split_shorter pre post pre' post' :
  pre +:+ post = pre' +:+ post' →
  String.length pre' ≤ String.length pre →
  ∃ r, pre = pre' +:+ r ∧ post' = r +:+ post.
Proof.
  revert pre. induction pre' as [|c pre' IH]; intros pre Heq Hlen.
  - exists pre. by rewrite !app_empty_l in *.
  - destruct pre as [|d pre]; [simpl in Hlen; lia|].
    rewrite !app_cons in Heq. injection Heq as -> Heq.
    destruct (IH pre Heq) as (r & -> & ->); [simpl in Hlen; lia|].
    by exists r.
Qed.

Lemma wholeWordAt_empty_term pre m post :
  wholeWordAt "" pre m post
  ↔ m = "" ∧ boundary (Str.last pre) (Str.head post) = true.
Proof.
  unfold wholeWordAt. split.
  - intros (Hm & Hb & _). destruct m; [|done]. by rewrite app_empty_l in Hb.
  - intros [-> Hb]. by rewrite app_empty_l, app_empty_r.
Qed.

Lemma first_word_start text :
  hasWordChar text = true →
  ∃ pre post,
    text = pre +:+ post
    ∧ hasWordChar pre = false
    ∧ isWordCharAt (Str.head post) = true.
Proof.
  induction text as [|c text IH]; [done|]. simpl.
  destruct (isWordChar c) eqn:Hc.
  - intros _. by exists "", (String c text).
  - intros Hrest. destruct (IH Hrest) as (pre & post & -> & Hpre & Hpost).
    exists (String c pre), post. split_and!; [done| |done].
    simpl. by rewrite Hc.
Qed.

(** The empty term, which nothing rejects before [createSmartLink]: the
    pattern is two word-boundary assertions, so an empty link [[[|]]] is put
    in front of the first word character of the text; a text without a word
    character comes back as it is. *)
Theorem createSmartLink_empty_term (text : string) :
  (hasWordChar text = false → createSmartLink text (JString "") = Ok text)
  ∧ (hasWordChar text = true →
     ∃ pre post,
       text = pre +:+ post
       ∧ hasWordChar pre = false
       ∧ isWordCharAt (Str.head post) = true
       ∧ createSmartLink text (JString "")
         = Ok (pre +:+ "[[|]]" +:+ post)).
Proof.
  split.
  - intros Hnone. apply createSmartLink_no_occurrence.
    intros (pre & m & post & -> & Hw).
    apply wholeWordAt_empty_term in Hw as [-> Hb].
    rewrite app_empty_l, hasWordChar_app in Hnone.
    apply orb_false_iff in Hnone as [Hpre Hpost].
    unfold boundary, Str.last in Hb.
    rewrite hasWordChar_false_lastFrom, hasWordChar_false_head in Hb; done.
  - intros Hsome. destruct (first_word_start text Hsome)
      as (pre & post & -> & Hpre & Hpost).
    exists pre, post. split_and!; [done..|].
    assert (firstWholeWord "" (pre +:+ post) pre "" post) as Hfirst.
    { split_and!; [by rewrite app_empty_l| |].
      - apply wholeWordAt_empty_term. split; [done|].
        unfold boundary, Str.last.
        by rewrite hasWordChar_false_lastFrom, Hpost.
      - intros pre' m' post' Heq Hw.
        apply wholeWordAt_empty_term in Hw as [-> Hb].
        rewrite app_empty_l in Heq.
        destruct (decide (String.length pre ≤ String.length pre')); [done|].
        destruct (app_split_shorter pre post pre' post' Heq) as (r & -> & ->);
          [lia|].
        rewrite hasWordChar_app in Hpre.
        apply orb_false_iff in Hpre as [Hpre' Hr].
        assert (r ≠ "") as Hne.
        { intros ->. rewrite app_empty_r in *. lia. }
        unfold boundary, Str.last in Hb.
        rewrite hasWordChar_false_lastFrom, head_app_nonempty,
          hasWordChar_false_head in Hb; done. }
    apply createSmartLink_first in Hfirst. by rewrite Hfirst.
Qed.

Lemma createSmartLink_empty_term_witness :
  createSmartLink "-- !" (JString "") = Ok "-- !"
  ∧ ∃ pre post,
      "(a GPU)" = pre +:+ post
      ∧ hasWordChar pre = false
      ∧ isWordCharAt (Str.head post) = true
      ∧ createSmartLink "(a GPU)" (JString "")
        = Ok (pre +:+ "[[|]]" +:+ post).
Proof.
  split.
  - apply (proj1 (createSmartLink_empty_term "-- !")). reflexivity.
  - apply (proj2 (createSmartLink_empty_term "(a GPU)")). reflexivity.
Defined.

Lemma sameText_refl term : sameTextIgnoringCase term term = true.
Proof.
  induction term as [|c term IH]; [done|]. simpl. rewrite IH.
  unfold sameIgnoringCase. by rewrite N.eqb_refl.
Qed.

(** The link that [createSmartLink] writes holds the term as a whole word
    again (when the term begins and ends with a word character), so the
    function is not idempotent: applied to its own output it wraps a match
    that lies no further right than the target of the first link, and the
    text grows by another link. *)
Theorem createSmartLink_relinks_its_output (term text : string) :
  isWordCharAt (Str.head term) = true →
  isWordCharAt (Str.last term) = true →
  occursAsWholeWord term text →
  ∃ pre m post out,
    firstWholeWord term text pre m post
    ∧ out = pre +:+ "[[" +:+ term +:+ "|" +:+ m +:+ "]]" +:+ post
    ∧ createSmartLink text (JString term) = Ok out
    ∧ ∃ pre2 m2 post2 out2,
        firstWholeWord term out pre2 m2 post2
        ∧ String.length pre2 ≤ String.length pre + 2
        ∧ createSmartLink out (JString term) = Ok out2
        ∧ out2 = pre2 +:+ "[[" +:+ term +:+ "|" +:+ m2 +:+ "]]" +:+ post2
        ∧ String.length out2 = String.length out + String.length term + 5.
Proof.
  intros Hhead Hlast Hocc.
  destruct (occurs_firstWholeWord term text Hocc)
    as (pre & m & post & Hfirst).
  assert (term ≠ "") as Hne by (by intros ->).
  set (out := pre +:+ "[[" +:+ term +:+ "|" +:+ m +:+ "]]" +:+ post).
  exists pre, m, post, out.
  split_and!; [done|done|by apply createSmartLink_first|].
  set (rest := "|" +:+ m +:+ "]]" +:+ post).
  assert (out = (pre +:+ "[[") +:+ term +:+ rest) as Hout.
  { unfold out, rest. by rewrite !app_assoc_str. }
  assert (wholeWordAt term (pre +:+ "[[") term rest) as Hw.
  { unfold wholeWordAt, boundary. split_and!; [apply sameText_refl|..].
    - rewrite last_app, head_app_nonempty, Hhead by done. done.
    - rewrite last_app, lastFrom_nonempty, Hlast by done. done. }
  destruct (occurs_firstWholeWord term out)
    as (pre2 & m2 & post2 & Hfirst2).
  { by exists (pre +:+ "[["), term, rest. }
  eexists pre2, m2, post2, _. split_and!; [done| | |reflexivity|].
  - destruct Hfirst2 as (_ & _ & Hmin).
    specialize (Hmin _ _ _ Hout Hw). rewrite length_app_str in Hmin.
    simpl in Hmin. lia.
  - by apply createSmartLink_first.
  - destruct Hfirst2 as (Hout2 & (Hsame & _) & _).
    apply sameText_length in Hsame. rewrite Hout2.
    rewrite !length_app_str. simpl. lia.
Qed.

Lemma createSmartLink_relinks_its_output_witness :
  ∃ pre m post out,
    firstWholeWord "gpu" "A GPU is a graphics processor" pre m post
    ∧ out = pre +:+ "[[" +:+ "gpu" +:+ "|" +:+ m +:+ "]]" +:+ post
    ∧ createSmartLink "A GPU is a graphics processor" (JString "gpu") = Ok out
    ∧ ∃ pre2 m2 post2 out2,
        firstWholeWord "gpu" out pre2 m2 post2
        ∧ String.length pre2 ≤ String.length pre + 2
        ∧ createSmartLink out (JString "gpu") = Ok out2
        ∧ out2 = pre2 +:+ "[[" +:+ "gpu" +:+ "|" +:+ m2 +:+ "]]" +:+ post2
        ∧ String.length out2 = String.length out + String.length "gpu" + 5.
Proof.
  apply (createSmartLink_relinks_its_output "gpu"
           "A GPU is a graphics processor").
  - reflexivity.
  - reflexivity.
  - exists "A ", "GPU", " is a graphics processor". split; [reflexivity|].
    split_and!; reflexivity.
Defined.

(** ** The settings tab and the router *)

Lemma firstMapping_app before after source :
  firstMapping (before ++ after) source
  = match firstMapping before source with
    | Some mapping => Some mapping
    | None => firstMapping after source
    end.
Proof.
  induction before as [|first before IH]; [done|]. simpl.
  by destruct (Str.startsWith source (sourcePath first)).
Qed.

(** Pressing Add and filling in the new entry appends the mapping
    [(src, tgt)].  Mappings that were there before keep their precedence.
    For a document that none of them matches: right after Add, while the
    entry is still empty, the router answers the empty folder path; once the
    entry is filled in, the document goes to [tgt] when [src] is a prefix of
    its path and to the default folder otherwise.  Removing the entry again
    gives the settings back. *)
Theorem added_mapping_routes
    (s : TermDefinitionPluginSettings) (src tgt : string) :
  ∃ s2 s3,
    onSourcePathChange (length (folderMappings s)) src (onAddMapping s) = Ok s2
    ∧ onTargetPathChange (length (folderMappings s)) tgt s2 = Ok s3
    ∧ folderMappings s3
      = folderMappings s ++ [{| sourcePath := src; targetPath := tgt |}]
    ∧ onRemoveMapping (length (folderMappings s)) s3 = s
    ∧ ∀ active file,
        (∀ mapping,
           firstMapping (folderMappings s) (path file) = Some mapping →
           getTargetFolder {| settings := onAddMapping s;
                              activeFile := active |} (Some file)
           = targetPath mapping
           ∧ getTargetFolder {| settings := s3; activeFile := active |}
               (Some file)
             = targetPath mapping)
        ∧ (firstMapping (folderMappings s) (path file) = None →
           getTargetFolder {| settings := onAddMapping s;
                              activeFile := active |} (Some file)
           = ""
           ∧ (isPrefixOf src (path file) →
              getTargetFolder {| settings := s3; activeFile := active |}
                (Some file)
              = tgt)
           ∧ (¬ isPrefixOf src (path file) →
              getTargetFolder {| settings := s3; activeFile := active |}
                (Some file)
              = defaultGlossaryPath s)).
Proof.
  destruct s as [endpoint key mappings fallback model].
  unfold onSourcePathChange, onTargetPathChange, onAddMapping. simpl.
  rewrite lookup_app_r, Nat.sub_diag by done. simpl.
  eexists _, _. split; [reflexivity|]. simpl.
  rewrite list_lookup_insert_eq by (rewrite length_app; simpl; lia).
  split; [reflexivity|]. simpl.
  rewrite !insert_app_r_alt, Nat.sub_diag by done. simpl.
  split_and!; [done| |].
  - unfold onRemoveMapping. simpl. f_equal.
    rewrite delete_middle. apply app_nil_r.
  - intros active file. unfold getTargetFolder. simpl.
    rewrite !firstMapping_app. split.
    + by intros mapping ->.
    + intros ->. simpl. split_and!; [done|..].
      * intros Hpre. apply startsWith_isPrefixOf in Hpre. by rewrite Hpre.
      * intros Hnot. destruct (Str.startsWith (path file) src) eqn:Hs; [|done].
        by apply startsWith_isPrefixOf in Hs.
Qed.

(** ** Every run of the pipeline *)

Lemma occupied_false_iff w p :
  occupied w p = false ↔ (p ∉ folders w) ∧ files w !! p = None.
Proof.
  unfold occupied. rewrite orb_false_iff, !bool_decide_eq_false.
  rewrite <- eq_None_not_Some. done.
Qed.

(** [createDefinitionNote] on any value of the payload: the folder chain is
    ensured, and then either something throws, with no file written, or one
    file is created at a path that nothing occupied. *)
Lemma createDefinitionNote_cases this v w :
  ∃ w1,
    files w1 = files w
    ∧ folders w1
      = list_to_set
          (missingFolders w (getTargetFolder this (activeFile this)))
        ∪ folders w
    ∧ effects w1
      = effects w ++ (CreatedFolder <$>
          missingFolders w (getTargetFolder this (activeFile this)))
    ∧ ((∃ e, createDefinitionNote this v w = (Throw e, w1))
       ∨ (∃ notePath body identifier,
            occupied w1 notePath = false
            ∧ createDefinitionNote this v w
              = (Ok identifier,
                 {| folders := folders w1;
                    files := <[notePath := body]> (files w1);
                    effects := effects w1 ++ [CreatedFile notePath body] |}))).
Proof.
  destruct (ensureFolderExists_run (getTargetFolder this (activeFile this)) w)
    as (w1 & Hrun & Hfiles & Hfolders & Heff).
  exists w1. split_and!; [done..|].
  unfold createDefinitionNote, bind, lift. rewrite Hrun.
  destruct (Get v "definition") as [text|]; [|left; by eexists].
  destruct (joinElement text) as [body|]; [|left; by eexists].
  destruct (Get v "term") as [term|]; [|left; by eexists].
  destruct (interpolate term) as [stem|]; [|left; by eexists].
  unfold create, ret.
  destruct (occupied w1 _) eqn:Hocc; [left; by eexists|].
  right. by eexists _, _, _.
Qed.

(** Every run of [handleTermDefinition] returns normally and ends in one of
    the five outcomes. *)
Lemma handleTermDefinition_outcome this selectedText reply w :
  ∃ outcome w',
    handleTermDefinition this selectedText reply w = (Ok tt, w')
    ∧ effects w'
      = effects w
        ++ effectsOfOutcome
             (missingFolders w (getTargetFolder this (activeFile this)))
             outcome
    ∧ vaultAfter w
        (missingFolders w (getTargetFolder this (activeFile this)))
        outcome w'
    ∧ (outcome = NothingSelected ↔ selectedText = "").
Proof.
  unfold handleTermDefinition.
  destruct (String.eqb_spec selectedText "") as [->|Hsel].
  { exists NothingSelected. eexists. by split_and!. }
  rewrite (ToBoolean_selection _ Hsel). cbn [negb].
  assert (∀ (logged : bool) w0,
            folders w0 = folders w → files w0 = files w →
            effects w0
            = effects w
              ++ (if logged
                  then [ConsoleError "Error calling LLM API:"] else []) →
            ∃ outcome w',
              notice "Failed to get definition from API" w0 = (Ok tt, w')
              ∧ effects w'
                = effects w
                  ++ effectsOfOutcome
                       (missingFolders w
                          (getTargetFolder this (activeFile this)))
                       outcome
              ∧ vaultAfter w
                  (missingFolders w (getTargetFolder this (activeFile this)))
                  outcome w'
              ∧ (outcome = NothingSelected ↔ selectedText = "")) as Hfailed.
  { intros logged w0 Hfo Hfi Heff. exists (CallFailed logged). eexists.
    split_and!; [reflexivity| |done|done].
    simpl. by rewrite Heff, <- app_assoc. }
  unfold tryCatch, bind at 1.
  destruct reply as [| | | |v]; simpl getDefinitionFromLLM;
    try (unfold bind, console_error, emit, ret; cbn [ToBoolean negb];
         by apply (Hfailed true)).
  unfold ret. destruct (ToBoolean v) eqn:Htrue; cbn [negb].
  2: { apply (Hfailed false); [done|done|by rewrite app_nil_r]. }
  unfold bind at 1.
  destruct (createDefinitionNote_cases this v w)
    as (w1 & Hfiles & Hfolders & Heff & [[e Hnote]|Hnote]).
  { rewrite Hnote. exists NoteFailed. eexists.
    split_and!; [reflexivity| |done|done].
    simpl. by rewrite Heff, <- !app_assoc. }
  destruct Hnote as (notePath & body & identifier & Hfree & Hnote).
  rewrite Hnote. apply occupied_false_iff in Hfree as [Hnofolder Hnofile].
  assert (∀ outcome' w',
            folders w' = folders w1 →
            files w' = <[notePath := body]> (files w1) →
            (outcome' = LinkFailed notePath body
             ∨ ∃ replaced, outcome' = Linked notePath body replaced) →
            vaultAfter w
              (missingFolders w (getTargetFolder this (activeFile this)))
              outcome' w') as Hvault.
  { intros outcome' w' Hfo Hfi [->|[replaced ->]]; simpl;
      rewrite Hfo, Hfi, Hfiles, Hfolders;
      (split_and!; [done|done|by rewrite <- Hfiles|by rewrite <- Hfolders]). }
  unfold bind, lift.
  destruct (Get v "term") as [term|].
  2: { exists (LinkFailed notePath body). eexists.
       split_and!; [reflexivity| |apply Hvault; by auto|done].
       simpl. by rewrite Heff, <- !app_assoc. }
  destruct (createSmartLink selectedText term) as [linkedText|].
  2: { exists (LinkFailed notePath body). eexists.
       split_and!; [reflexivity| |apply Hvault; by auto|done].
       simpl. by rewrite Heff, <- !app_assoc. }
  destruct (interpolate v) as [pattern|].
  2: { exists (LinkFailed notePath body). eexists.
       split_and!; [reflexivity| |apply Hvault; by auto|done].
       simpl. by rewrite Heff, <- !app_assoc. }
  eexists (Linked notePath body _). eexists.
  split_and!; [reflexivity| |apply Hvault; by eauto|done].
  simpl. by rewrite Heff, <- !app_assoc.
Qed.

Lemma effectsOfOutcome_notice missing outcome :
  ∃ before message,
    effectsOfOutcome missing outcome = before ++ [Notice message]
    ∧ noNotice before
    ∧ (message = "No text selected" ↔ outcome = NothingSelected).
Proof.
  assert (noNotice (CreatedFolder <$> missing)) as Hfolders.
  { intros message Hin. by apply list_elem_of_fmap in Hin as (? & ? & _). }
  destruct outcome as [|logged| |notePath body|notePath body replaced]; simpl.
  - exists [], "No text selected". split_and!; [done| |done].
    intros message Hin. by apply elem_of_nil in Hin.
  - eexists _, _. split_and!; [reflexivity| |done].
    intros message Hin. destruct logged; set_solver.
  - eexists ((CreatedFolder <$> missing)
            ++ [ConsoleError "Error handling term definition:"]), _.
    rewrite <- app_assoc. split_and!; [reflexivity| |done].
    intros message [Hin|Hin]%elem_of_app; [by apply (Hfolders message)|].
    set_solver.
  - eexists ((CreatedFolder <$> missing)
            ++ [CreatedFile notePath body;
                ConsoleError "Error handling term definition:"]), _.
    rewrite <- app_assoc. split_and!; [reflexivity| |done].
    intros message [Hin|Hin]%elem_of_app; [by apply (Hfolders message)|].
    set_solver.
  - eexists ((CreatedFolder <$> missing)
            ++ [CreatedFile notePath body; ReplacedSelection replaced]), _.
    rewrite <- app_assoc. split_and!; [reflexivity| |done].
    intros message [Hin|Hin]%elem_of_app; [by apply (Hfolders message)|].
    set_solver.
Qed.

(** Whatever the selection, the outcome of the call and the state of the
    vault, [handleTermDefinition] returns normally (no exception leaves it)
    and shows exactly one notice, as its last effect; the notice is
    ["No text selected"] exactly when the selection is empty. *)
Theorem run_ends_with_one_notice
    (this : TermDefinitionPlugin) (selectedText : string)
    (reply : LLMReply) (w : World) :
  ∃ w' before message,
    handleTermDefinition this selectedText reply w = (Ok tt, w')
    ∧ effects w' = effects w ++ before ++ [Notice message]
    ∧ noNotice before
    ∧ (message = "No text selected" ↔ selectedText = "").
Proof.
  destruct (handleTermDefinition_outcome this selectedText reply w)
    as (outcome & w' & Hrun & Heff & _ & Hsel).
  destruct (effectsOfOutcome_notice
              (missingFolders w (getTargetFolder this (activeFile this)))
              outcome) as (before & message & Hshape & Hnone & Hmsg).
  exists w', before, message. split_and!; [done| |done|].
  - by rewrite Heff, Hshape.
  - by rewrite Hmsg, Hsel.
Qed.

(** A run only adds to the vault: every folder and every file that was
    there is still there with its content, at most one file is new, and it
    lies at a path that nothing occupied; every new folder is a prefix of the
    target folder.  With an empty selection nothing is added. *)
Theorem run_only_adds_to_vault
    (this : TermDefinitionPlugin) (selectedText : string)
    (reply : LLMReply) (w : World) :
  ∃ w',
    handleTermDefinition this selectedText reply w = (Ok tt, w')
    ∧ folders w ⊆ folders w'
    ∧ files w ⊆ files w'
    ∧ (files w' = files w
       ∨ ∃ notePath body,
           occupied w notePath = false
           ∧ files w' = <[notePath := body]> (files w))
    ∧ (∀ folder, folder ∈ folders w' →
         folder ∈ folders w
         ∨ folder ∈ folderPrefixes (getTargetFolder this (activeFile this))
           ∧ occupied w folder = false)
    ∧ (selectedText = "" → folders w' = folders w ∧ files w' = files w).
Proof.
  destruct (handleTermDefinition_outcome this selectedText reply w)
    as (outcome & w' & Hrun & _ & Hvault & Hsel).
  exists w'. split; [done|].
  assert (∀ folder,
            folder ∈ (list_to_set
                        (missingFolders w
                           (getTargetFolder this (activeFile this)))
                      ∪ folders w : gset string) →
            folder ∈ folders w
            ∨ folder ∈ folderPrefixes (getTargetFolder this (activeFile this))
              ∧ occupied w folder = false) as Hnew.
  { intros folder [Hin|Hin]%elem_of_union; [|by left].
    apply elem_of_list_to_set in Hin. unfold missingFolders in Hin.
    apply list_elem_of_filter in Hin as [? ?]. by right. }
  destruct outcome as [|logged| |notePath body|notePath body replaced];
    simpl in Hvault.
  - destruct Hvault as [-> ->]. split_and!; [done|done|by left|by left|done].
  - destruct Hvault as [-> ->].
    split_and!; [done|done|by left|by left|done].
  - destruct Hvault as [-> ->].
    split_and!; [set_solver|done|by left|done|].
    intros Hempty. by apply Hsel in Hempty.
  - destruct Hvault as (Hfo & -> & Hnone & Hnot). rewrite Hfo in *.
    split_and!; [set_solver|by apply insert_subseteq| |done|].
    + right. exists notePath, body. split; [|done].
      apply occupied_false_iff. split; [set_solver|done].
    + intros Hempty. by apply Hsel in Hempty.
  - destruct Hvault as (Hfo & -> & Hnone & Hnot). rewrite Hfo in *.
    split_and!; [set_solver|by apply insert_subseteq| |done|].
    + right. exists notePath, body. split; [|done].
      apply occupied_false_iff. split; [set_solver|done].
    + intros Hempty. by apply Hsel in Hempty.
Qed.

(** The selection is replaced at most once in a run, and only as the step
    between the creation of the note file and the success notice; a run
    without replacement never shows the success notice. *)
Theorem selection_replaced_only_after_note
    (this : TermDefinitionPlugin) (selectedText : string)
    (reply : LLMReply) (w : World) :
  ∃ w' new,
    handleTermDefinition this selectedText reply w = (Ok tt, w')
    ∧ effects w' = effects w ++ new
    ∧ ((∃ before notePath body replaced,
          new = before
                ++ [CreatedFile notePath body;
                    ReplacedSelection replaced;
                    Notice "Term definition created successfully"]
          ∧ (∀ other, ReplacedSelection other ∉ before)
          ∧ files w !! notePath = None
          ∧ files w' !! notePath = Some body)
       ∨ ((∀ replaced, ReplacedSelection replaced ∉ new)
          ∧ Notice "Term definition created successfully" ∉ new)).
Proof.
  destruct (handleTermDefinition_outcome this selectedText reply w)
    as (outcome & w' & Hrun & Heff & Hvault & _).
  exists w',
    (effectsOfOutcome
       (missingFolders w (getTargetFolder this (activeFile this))) outcome).
  split_and!; [done|done|].
  assert (∀ other,
            ReplacedSelection other
            ∉ CreatedFolder <$>
                missingFolders w (getTargetFolder this (activeFile this)))
    as Hfolders.
  { intros other Hin. by apply list_elem_of_fmap in Hin as (? & ? & _). }
  assert (Notice "Term definition created successfully"
          ∉ CreatedFolder <$>
              missingFolders w (getTargetFolder this (activeFile this)))
    as Hfolders'.
  { intros Hin. by apply list_elem_of_fmap in Hin as (? & ? & _). }
  destruct outcome as [|logged| |notePath body|notePath body replaced];
    simpl in *.
  - right. set_solver.
  - right. destruct logged; set_solver.
  - right. split.
    + intros replaced [Hin|Hin]%elem_of_app; [by apply (Hfolders replaced)|].
      set_solver.
    + intros [Hin|Hin]%elem_of_app; [done|]. set_solver.
  - right. split.
    + intros replaced [Hin|Hin]%elem_of_app; [by apply (Hfolders replaced)|].
      set_solver.
    + intros [Hin|Hin]%elem_of_app; [done|]. set_solver.
  - left. destruct Hvault as (_ & Hfiles & Hnone & _).
    eexists _, notePath, body, replaced. split_and!; [done|done|done|].
    rewrite Hfiles. apply lookup_insert_eq.
Qed.

(** ** Partial effects and repeated runs *)

Lemma createSmartLink_not_string selectedText term :
  (∀ s, term ≠ JString s) →
  createSmartLink selectedText term = Throw TypeError.
Proof. intros Hno. destruct term; try reflexivity. by destruct (Hno s). Qed.

(** [createDefinitionNote] on any value whose [definition] and [term]
    print. *)
Lemma createDefinitionNote_printed this v term stem text body w :
  Get v "definition" = Ok text → joinElement text = Ok body →
  Get v "term" = Ok term → interpolate term = Ok stem →
  ∃ w1,
    files w1 = files w
    ∧ folders w1
      = list_to_set
          (missingFolders w (getTargetFolder this (activeFile this)))
        ∪ folders w
    ∧ effects w1
      = effects w ++ (CreatedFolder <$>
          missingFolders w (getTargetFolder this (activeFile this)))
    ∧ createDefinitionNote this v w
      = if occupied w (notePathOf this stem)
        then (Throw NoteAlreadyExists, w1)
        else (Ok (Str.replace ".md" "" (notePathOf this stem)),
              {| folders := folders w1;
                 files := <[notePathOf this stem :=
                              noteBodyOf (activeFile this) body]> (files w1);
                 effects := effects w1 ++
                   [CreatedFile (notePathOf this stem)
                      (noteBodyOf (activeFile this) body)] |}).
Proof.
  intros Htext Hbody Hterm Hstem.
  destruct (ensureFolderExists_run (getTargetFolder this (activeFile this)) w)
    as (w1 & Hrun & Hfiles & Hfolders & Heff).
  assert (occupied w1 (notePathOf this stem)
          = occupied w (notePathOf this stem)) as Hocc.
  { unfold occupied. rewrite Hfiles, Hfolders. f_equal.
    apply bool_decide_ext. rewrite elem_of_union, elem_of_list_to_set.
    unfold missingFolders. rewrite list_elem_of_filter.
    pose proof (notePath_not_folderPrefix this stem). tauto. }
  exists w1. split_and!; [done..|].
  unfold createDefinitionNote, bind, lift.
  rewrite Hrun, Htext, Hbody, Hterm, Hstem, noteContent_body.
  fold (notePathOf this stem). unfold create, ret. rewrite Hocc.
  by destruct (occupied w (notePathOf this stem)).
Qed.

(** A payload whose [term] is not a string (missing, [null], a number, an
    object, ...) is not stopped before the vault: when the value prints as
    [stem] and the path [<folder>/<stem>.md] is free, the note is written
    there, and only then does the run fail, in [createSmartLink].  The note
    stays, the selection is not replaced, and the run ends with the failure
    notice. *)
Theorem note_written_before_link_fails
    (this : TermDefinitionPlugin) (selectedText : string)
    (definition term text : JSValue) (stem body : string) (w : World) :
  selectedText ≠ "" →
  ToBoolean definition = true →
  Get definition "term" = Ok term →
  (∀ s, term ≠ JString s) →
  interpolate term = Ok stem →
  Get definition "definition" = Ok text →
  joinElement text = Ok body →
  occupied w (notePathOf this stem) = false →
  ∃ w',
    handleTermDefinition this selectedText (Parsed definition) w = (Ok tt, w')
    ∧ files w'
      = <[notePathOf this stem := noteBodyOf (activeFile this) body]> (files w)
    ∧ effects w'
      = effects w
        ++ (CreatedFolder <$>
              missingFolders w (getTargetFolder this (activeFile this)))
        ++ [CreatedFile (notePathOf this stem)
              (noteBodyOf (activeFile this) body);
            ConsoleError "Error handling term definition:";
            Notice "Error creating term definition"].
Proof.
  intros Hsel Htrue Hterm Hnostring Hstem Htext Hbody Hfree.
  destruct (createDefinitionNote_printed this definition term stem text body w
              Htext Hbody Hterm Hstem) as (w1 & Hfiles & _ & Heff & Hnote).
  rewrite Hfree in Hnote.
  unfold handleTermDefinition. rewrite (ToBoolean_selection _ Hsel).
  cbn [negb]. unfold tryCatch, bind at 1, getDefinitionFromLLM, ret.
  rewrite Htrue. cbn [negb]. unfold bind at 1. rewrite Hnote.
  unfold bind, lift. rewrite Hterm, (createSmartLink_not_string _ _ Hnostring).
  eexists. split; [reflexivity|]. simpl. rewrite Hfiles, Heff.
  by rewrite <- !app_assoc.
Qed.

Lemma note_written_before_link_fails_witness :
  ∃ w',
    handleTermDefinition defaultPlugin "A GPU"
      (Parsed (JObject [("definition", JString "a chip")])) emptyWorld
    = (Ok tt, w')
    ∧ files w'
      = <[notePathOf defaultPlugin "undefined" :=
            noteBodyOf (activeFile defaultPlugin) "a chip"]>
          (files emptyWorld)
    ∧ effects w'
      = effects emptyWorld
        ++ (CreatedFolder <$>
              missingFolders emptyWorld
                (getTargetFolder defaultPlugin (activeFile defaultPlugin)))
        ++ [CreatedFile (notePathOf defaultPlugin "undefined")
              (noteBodyOf (activeFile defaultPlugin) "a chip");
            ConsoleError "Error handling term definition:";
            Notice "Error creating term definition"].
Proof.
  apply (note_written_before_link_fails defaultPlugin "A GPU"
           (JObject [("definition", JString "a chip")])
           JUndefined (JString "a chip") "undefined" "a chip" emptyWorld);
    try reflexivity; discriminate.
Defined.

(** A run on a [TermDefinition], with the whole vault that it leaves. *)
Lemma handleTermDefinition_world this selectedText v term text w :
  selectedText ≠ "" →
  isTermDefinition v term text →
  ∃ w',
    handleTermDefinition this selectedText (Parsed v) w = (Ok tt, w')
    ∧ folders w'
      = list_to_set
          (missingFolders w (getTargetFolder this (activeFile this)))
        ∪ folders w
    ∧ if occupied w (notePathOf this term)
      then
        files w' = files w
        ∧ effects w'
          = effects w
            ++ (CreatedFolder <$>
                  missingFolders w (getTargetFolder this (activeFile this)))
            ++ [ConsoleError "Error handling term definition:";
                Notice "Error creating term definition"]
      else
        files w'
        = <[notePathOf this term := noteBodyOf (activeFile this) text]>
            (files w)
        ∧ ∃ replaced,
            effects w'
            = effects w
              ++ (CreatedFolder <$>
                    missingFolders w (getTargetFolder this (activeFile this)))
              ++ [CreatedFile (notePathOf this term)
                    (noteBodyOf (activeFile this) text);
                  ReplacedSelection replaced;
                  Notice "Term definition created successfully"].
Proof.
  intros Hsel Hdef.
  apply isTermDefinition_Get in Hdef as (Hterm & Htext & Hprint & Htrue).
  destruct (createDefinitionNote_printed this v (JString term) term
              (JString text) text w Htext eq_refl Hterm eq_refl)
    as (w1 & Hfiles & Hfolders & Heff & Hnote).
  unfold handleTermDefinition. rewrite (ToBoolean_selection _ Hsel).
  cbn [negb]. unfold tryCatch, bind at 1, getDefinitionFromLLM, ret.
  rewrite Htrue. cbn [negb]. unfold bind at 1. rewrite Hnote.
  destruct (occupied w (notePathOf this term)).
  - eexists. split; [reflexivity|]. simpl. rewrite Hfiles, Heff, Hfolders.
    by rewrite <- !app_assoc.
  - unfold bind, lift. rewrite Hterm, createSmartLink_string, Hprint.
    eexists. split; [reflexivity|]. simpl. rewrite Hfiles, Heff, Hfolders.
    split_and!; [done|done|]. eexists. by rewrite <- !app_assoc.
Qed.

Lemma missingFolders_none path w :
  (∀ q, q ∈ folderPrefixes path → occupied w q = true) →
  missingFolders w path = [].
Proof.
  intros Hall. unfold missingFolders. apply filter_none.
  intros q Hq Hfree. rewrite (Hall q Hq) in Hfree. done.
Qed.

(** Running the command a second time for the same term (same plugin
    state, any selections, any definition texts): the first run writes the
    note, the second finds its path occupied and changes nothing in the
    vault; it creates no folder, keeps the first note as it was written,
    does not replace the selection and ends with the failure notice. *)
Theorem second_run_for_same_term_aborts
    (this : TermDefinitionPlugin) (selected1 selected2 : string)
    (definition1 definition2 : JSValue) (term text1 text2 : string)
    (w : World) :
  selected1 ≠ "" → selected2 ≠ "" →
  isTermDefinition definition1 term text1 →
  isTermDefinition definition2 term text2 →
  occupied w (notePathOf this term) = false →
  ∃ w1 w2,
    handleTermDefinition this selected1 (Parsed definition1) w = (Ok tt, w1)
    ∧ handleTermDefinition this selected2 (Parsed definition2) w1
      = (Ok tt, w2)
    ∧ files w1 !! notePathOf this term
      = Some (noteBodyOf (activeFile this) text1)
    ∧ folders w2 = folders w1
    ∧ files w2 = files w1
    ∧ effects w2
      = effects w1
        ++ [ConsoleError "Error handling term definition:";
            Notice "Error creating term definition"].
Proof.
  intros Hsel1 Hsel2 Hdef1 Hdef2 Hfree.
  destruct (handleTermDefinition_world this selected1 definition1 term text1 w
              Hsel1 Hdef1) as (w1 & Hrun1 & Hfolders1 & Hw1).
  rewrite Hfree in Hw1. destruct Hw1 as [Hfiles1 _].
  destruct (handleTermDefinition_world this selected2 definition2 term text2
              w1 Hsel2 Hdef2) as (w2 & Hrun2 & Hfolders2 & Hw2).
  assert (occupied w1 (notePathOf this term) = true) as Hocc.
  { apply occupied_true_iff. right. rewrite Hfiles1, lookup_insert_eq. done. }
  rewrite Hocc in Hw2. destruct Hw2 as [Hfiles2 Heff2].
  assert (missingFolders w1 (getTargetFolder this (activeFile this)) = [])
    as Hnone.
  { apply missingFolders_none. intros q Hq. apply occupied_true_iff.
    rewrite Hfolders1, Hfiles1.
    destruct (occupied w q) eqn:Hw.
    - apply occupied_true_iff in Hw as [Hin|Hin]; [left; set_solver|].
      right. rewrite lookup_insert_ne; [done|].
      intros <-. by apply (notePath_not_folderPrefix this term).
    - left. apply elem_of_union_l, elem_of_list_to_set.
      unfold missingFolders. by apply list_elem_of_filter. }
  rewrite Hnone in Hfolders2, Heff2. simpl in Hfolders2, Heff2.
  exists w1, w2. split_and!; [done|done| |set_solver|done|done].
  rewrite Hfiles1. apply lookup_insert_eq.
Qed.

Lemma second_run_for_same_term_aborts_witness :
  ∃ w1 w2,
    handleTermDefinition defaultPlugin "A GPU is a graphics processor"
      (Parsed (termDefinition "gpu" "a chip")) emptyWorld
    = (Ok tt, w1)
    ∧ handleTermDefinition defaultPlugin "my GPU"
        (Parsed (termDefinition "gpu" "a graphics processor")) w1
      = (Ok tt, w2)
    ∧ files w1 !! notePathOf defaultPlugin "gpu"
      = Some (noteBodyOf (activeFile defaultPlugin) "a chip")
    ∧ folders w2 = folders w1
    ∧ files w2 = files w1
    ∧ effects w2
      = effects w1
        ++ [ConsoleError "Error handling term definition:";
            Notice "Error creating term definition"].
Proof.
  apply (second_run_for_same_term_aborts defaultPlugin
           "A GPU is a graphics processor" "my GPU"
           (termDefinition "gpu" "a chip")
           (termDefinition "gpu" "a graphics processor")
           "gpu" "a chip" "a graphics processor" emptyWorld).
  - discriminate.
  - discriminate.
  - eexists. split_and!; reflexivity.
  - eexists. split_and!; reflexivity.
  - reflexivity.
Defined.

Lemma notePathOf_inj this term1 term2 :
  notePathOf this term1 = notePathOf this term2 → term1 = term2.
Proof.
  unfold notePathOf. intros Heq.
  apply (inj (String.app _)) in Heq. apply (inj (String.app _)) in Heq.
  assert (String.length term1 = String.length term2) as Hlen.
  { apply (f_equal String.length) in Heq.
    rewrite !length_app_str in Heq. lia. }
  by destruct (app_inv_same_length _ _ _ _ Heq Hlen).
Qed.

Lemma missingFolders_after_run path w w1 :
  folders w1 = list_to_set (missingFolders w path) ∪ folders w →
  (∀ q, is_Some (files w !! q) → is_Some (files w1 !! q)) →
  missingFolders w1 path = [].
Proof.
  intros Hfolders Hfiles. apply missingFolders_none. intros q Hq.
  apply occupied_true_iff. rewrite Hfolders.
  destruct (occupied w q) eqn:Hw.
  - apply occupied_true_iff in Hw as [Hin|Hin]; [left; set_solver|].
    right. by apply Hfiles.
  - left. apply elem_of_union_l, elem_of_list_to_set.
    unfold missingFolders. by apply list_elem_of_filter.
Qed.

(** Two runs for different terms (same plugin state, both note paths free
    at the start): the notes go to different paths, the second run creates
    no folder, and afterwards both notes are in the vault, each with its own
    body. *)
Theorem runs_for_different_terms_write_two_notes
    (this : TermDefinitionPlugin) (selected1 selected2 : string)
    (definition1 definition2 : JSValue) (term1 term2 text1 text2 : string)
    (w : World) :
  selected1 ≠ "" → selected2 ≠ "" →
  isTermDefinition definition1 term1 text1 →
  isTermDefinition definition2 term2 text2 →
  term1 ≠ term2 →
  occupied w (notePathOf this term1) = false →
  occupied w (notePathOf this term2) = false →
  ∃ w1 w2,
    handleTermDefinition this selected1 (Parsed definition1) w = (Ok tt, w1)
    ∧ handleTermDefinition this selected2 (Parsed definition2) w1
      = (Ok tt, w2)
    ∧ notePathOf this term1 ≠ notePathOf this term2
    ∧ folders w2 = folders w1
    ∧ files w2
      = <[notePathOf this term2 := noteBodyOf (activeFile this) text2]>
          (<[notePathOf this term1 := noteBodyOf (activeFile this) text1]>
             (files w))
    ∧ files w2 !! notePathOf this term1
      = Some (noteBodyOf (activeFile this) text1)
    ∧ files w2 !! notePathOf this term2
      = Some (noteBodyOf (activeFile this) text2).
Proof.
  intros Hsel1 Hsel2 Hdef1 Hdef2 Hterms Hfree1 Hfree2.
  assert (notePathOf this term1 ≠ notePathOf this term2) as Hpaths.
  { intros Heq. by apply notePathOf_inj in Heq. }
  destruct (handleTermDefinition_world this selected1 definition1 term1 text1
              w Hsel1 Hdef1) as (w1 & Hrun1 & Hfolders1 & Hw1).
  rewrite Hfree1 in Hw1. destruct Hw1 as [Hfiles1 _].
  destruct (handleTermDefinition_world this selected2 definition2 term2 text2
              w1 Hsel2 Hdef2) as (w2 & Hrun2 & Hfolders2 & Hw2).
  apply occupied_false_iff in Hfree2 as [Hnofolder Hnofile].
  assert (occupied w1 (notePathOf this term2) = false) as Hfree.
  { apply occupied_false_iff. rewrite Hfolders1, Hfiles1. split.
    - intros [Hin|Hin]%elem_of_union; [|done].
      apply elem_of_list_to_set in Hin. unfold missingFolders in Hin.
      apply list_elem_of_filter in Hin as [_ Hin].
      by apply (notePath_not_folderPrefix this term2).
    - by rewrite lookup_insert_ne. }
  rewrite Hfree in Hw2. destruct Hw2 as [Hfiles2 _].
  rewrite (missingFolders_after_run _ w w1) in Hfolders2; [|done|].
  2: { intros q Hq. rewrite Hfiles1.
       destruct (decide (notePathOf this term1 = q)) as [<-|Hne].
       - by rewrite lookup_insert_eq.
       - by rewrite lookup_insert_ne. }
  exists w1, w2. rewrite Hfiles2, Hfiles1.
  split_and!; [done|done|done|set_solver|done|..].
  - rewrite lookup_insert_ne, lookup_insert_eq; done.
  - by rewrite lookup_insert_eq.
Qed.

Lemma runs_for_different_terms_write_two_notes_witness :
  ∃ w1 w2,
    handleTermDefinition defaultPlugin "A GPU is a graphics processor"
      (Parsed (termDefinition "gpu" "a chip")) emptyWorld
    = (Ok tt, w1)
    ∧ handleTermDefinition defaultPlugin "the CPU"
        (Parsed (termDefinition "cpu" "a processor")) w1
      = (Ok tt, w2)
    ∧ notePathOf defaultPlugin "gpu" ≠ notePathOf defaultPlugin "cpu"
    ∧ folders w2 = folders w1
    ∧ files w2
      = <[notePathOf defaultPlugin "cpu" :=
            noteBodyOf (activeFile defaultPlugin) "a processor"]>
          (<[notePathOf defaultPlugin "gpu" :=
               noteBodyOf (activeFile defaultPlugin) "a chip"]>
             (files emptyWorld))
    ∧ files w2 !! notePathOf defaultPlugin "gpu"
      = Some (noteBodyOf (activeFile defaultPlugin) "a chip")
    ∧ files w2 !! notePathOf defaultPlugin "cpu"
      = Some (noteBodyOf (activeFile defaultPlugin) "a processor").
Proof.
  apply (runs_for_different_terms_write_two_notes defaultPlugin
           "A GPU is a graphics processor" "the CPU"
           (termDefinition "gpu" "a chip") (termDefinition "cpu" "a processor")
           "gpu" "cpu" "a chip" "a processor" emptyWorld).
  - discriminate.
  - discriminate.
  - eexists. split_and!; reflexivity.
  - eexists. split_and!; reflexivity.
  - discriminate.
  - reflexivity.
  - reflexivity.
Defined.

(** ** Order of the mappings *)

Lemma isPrefixOf_trans a b c : isPrefixOf a b → isPrefixOf b c → isPrefixOf a c.
Proof.
  intros [r ->] [r' ->]. exists (r +:+ r'). by rewrite app_assoc_str.
Qed.

(** List order beats specificity: a mapping whose [sourcePath] extends the
    [sourcePath] of a mapping listed before it is never chosen for a
    document that it matches; the router stops at the earlier, more general
    mapping or before it. *)
Theorem earlier_prefix_shadows_mapping
    (this : TermDefinitionPlugin)
    (before middle after : list FolderMapping)
    (general specific : FolderMapping) (file : TFile) :
  folderMappings (settings this)
  = before ++ general :: middle ++ specific :: after →
  isPrefixOf (sourcePath general) (sourcePath specific) →
  isPrefixOf (sourcePath specific) (path file) →
  ∃ mapping,
    firstMapping (folderMappings (settings this)) (path file) = Some mapping
    ∧ (mapping ∈ before ∨ mapping = general)
    ∧ getTargetFolder this (Some file) = targetPath mapping.
Proof.
  intros Heq Hgeneral Hspecific. unfold getTargetFolder.
  rewrite Heq, firstMapping_app.
  destruct (firstMapping before (path file)) as [mapping|] eqn:Hfirst.
  - exists mapping. split_and!; [done| |done]. left.
    apply firstMapping_Some in Hfirst as (l1 & l2 & -> & _).
    apply elem_of_app. right. by left.
  - exists general. simpl.
    assert (Str.startsWith (path file) (sourcePath general) = true) as ->.
    { apply startsWith_isPrefixOf. by apply (isPrefixOf_trans _ _ _ Hgeneral). }
    split_and!; [done|by right|done].
Qed.

Lemma earlier_prefix_shadows_mapping_witness :
  ∃ mapping,
    firstMapping
      (folderMappings
         (settings
            {| settings :=
                 {| apiEndpoint := ""; apiKey := "";
                    folderMappings :=
                      [{| sourcePath := "Projects"; targetPath := "A" |};
                       {| sourcePath := "Projects/Sub"; targetPath := "B" |}];
                    defaultGlossaryPath := "Glossary"; llmModel := "" |};
               activeFile := None |}))
      (path {| path := "Projects/Sub/x.md"; basename := "x" |})
    = Some mapping
    ∧ (mapping ∈ [] ∨ mapping = {| sourcePath := "Projects";
                                   targetPath := "A" |})
    ∧ getTargetFolder
        {| settings :=
             {| apiEndpoint := ""; apiKey := "";
                folderMappings :=
                  [{| sourcePath := "Projects"; targetPath := "A" |};
                   {| sourcePath := "Projects/Sub"; targetPath := "B" |}];
                defaultGlossaryPath := "Glossary"; llmModel := "" |};
           activeFile := None |}
        (Some {| path := "Projects/Sub/x.md"; basename := "x" |})
      = targetPath mapping.
Proof.
  apply (earlier_prefix_shadows_mapping
           {| settings :=
                {| apiEndpoint := ""; apiKey := "";
                   folderMappings :=
                     [{| sourcePath := "Projects"; targetPath := "A" |};
                      {| sourcePath := "Projects/Sub"; targetPath := "B" |}];
                   defaultGlossaryPath := "Glossary"; llmModel := "" |};
              activeFile := None |}
           [] [] []
           {| sourcePath := "Projects"; targetPath := "A" |}
           {| sourcePath := "Projects/Sub"; targetPath := "B" |}
           {| path := "Projects/Sub/x.md"; basename := "x" |}).
  - reflexivity.
  - by exists "/Sub".
  - by exists "/x.md".
Defined.
